(** * kapish: a shallow embedding of [src/kapish.c]

    The development follows the source file top to bottom: C strings and
    [strncmp], the command classifier [check_command], the tokenizer
    [tokenize] built on [strtok], the line source [get_line], the
    dispatcher [run_command], [cleanup], the startup pass [initalize] and
    the interactive [loop].  Process-wide state (environment, working
    directory, what the shell printed) is threaded explicitly; the parts
    of the operating system the code calls into ([fork], [execvp],
    [chdir]) are an oracle record. *)

From Equations Require Import Equations.
From stdpp Require Import base strings gmap list.
From Stdlib Require Import ZArith Ascii String Lia.

Local Open Scope string_scope.
Local Open Scope Z_scope.

(** ** C strings

    A [char *] is modelled by the bytes stored from the pointer on; the C
    string it denotes is the part before the first NUL byte.  Reading at
    the end of the Rocq string yields the terminating NUL. *)

Module CString.

Definition NUL : ascii := "000"%char.
Definition SP : ascii := " "%char.
Definition LF : ascii := "010"%char.

(** The byte at the pointer, and the pointer advanced by one. *)
Definition peek (s : string) : ascii :=
  match s with
  | EmptyString => NUL
  | String c _ => c
  end.

Definition advance (s : string) : string :=
  match s with
  | EmptyString => EmptyString
  | String _ s' => s'
  end.

(** The C string a buffer denotes: everything before the first NUL. *)
Fixpoint cstr (s : string) : string :=
  match s with
  | EmptyString => EmptyString
  | String c s' => if Ascii.eqb c NUL then EmptyString else String c (cstr s')
  end.

(** [unsigned char] value of a byte, as [strncmp] compares them. *)
Definition uchar (c : ascii) : Z := Z.of_N (N_of_ascii c).

(** [strncmp(s1, s2, n)]: compare at most [n] bytes, stopping after a NUL. *)
Fixpoint strncmp (s1 s2 : string) (n : nat) : Z :=
  match n with
  | O => 0
  | S n' =>
      let c1 := peek s1 in
      let c2 := peek s2 in
      if Ascii.eqb c1 c2
      then if Ascii.eqb c1 NUL then 0 else strncmp (advance s1) (advance s2) n'
      else uchar c1 - uchar c2
  end.

(** [strlen]. *)
Definition strlen (s : string) : nat := String.length (cstr s).

(** The first [n] bytes of a string. *)
Fixpoint take_str (n : nat) (s : string) : string :=
  match n, s with
  | S n', String c s' => String c (take_str n' s')
  | _, _ => EmptyString
  end.

Definition nul_free (s : string) : Prop := cstr s = s.

End CString.
Import CString.

(** ** Command kinds and the classifier *)

Inductive cmd_type : Set := EXTERNAL | SETENV | UNSETENV | CD | EXIT.

Definition SETENV_COMMAND : string := "setenv".
Definition UNSETENV_COMMAND : string := "unsetenv".
Definition CD_COMMAND : string := "cd".
Definition EXIT_COMMAND : string := "exit".

Definition check_command (command : string) : cmd_type :=
  if strncmp CD_COMMAND command 3 =? 0 then CD
  else if strncmp EXIT_COMMAND command 5 =? 0 then EXIT
  else if strncmp SETENV_COMMAND command 7 =? 0 then SETENV
  else if strncmp UNSETENV_COMMAND command 9 =? 0 then UNSETENV
  else EXTERNAL.

(** The classifier in the specification's words: whole-token equality
    against the four reserved names. *)
Definition classify_exact (token : string) : cmd_type :=
  if String.eqb token "setenv" then SETENV
  else if String.eqb token "unsetenv" then UNSETENV
  else if String.eqb token "cd" then CD
  else if String.eqb token "exit" then EXIT
  else EXTERNAL.

(** ** The tokenizer *)

(** [strchr(delim, c) != NULL] for a non-NUL byte [c]. *)
Definition is_delim (delim : string) (c : ascii) : bool :=
  existsb (Ascii.eqb c) (list_ascii_of_string delim).

(** [s += strspn(s, delim)]: skip the leading delimiters.  The result is
    empty when the terminator was reached. *)
Fixpoint skip_delims (delim s : string) : string :=
  match s with
  | EmptyString => EmptyString
  | String c s' =>
      if Ascii.eqb c NUL then EmptyString
      else if is_delim delim c then skip_delims delim s'
      else s
  end.

(** [end = s + strcspn(s, delim)]: the token starting at [s] and the
    pointer [strtok] saves.  When the token is ended by a delimiter the
    delimiter is overwritten by NUL and the saved pointer is the byte
    after it; when it is ended by the terminator the saved pointer stays
    on the terminator. *)
Fixpoint scan_token (delim s : string) : string * string :=
  match s with
  | EmptyString => (EmptyString, EmptyString)
  | String c s' =>
      if Ascii.eqb c NUL then (EmptyString, EmptyString)
      else if is_delim delim c then (EmptyString, s')
      else let '(token, save) := scan_token delim s' in (String c token, save)
  end.

(** [strtok], with its hidden saved pointer made explicit: [save] is the
    string to scan (the first call) or the pointer the previous call
    saved (a call with NULL).  [None] is the NULL result. *)
Definition strtok (save delim : string) : option (string * string) :=
  match skip_delims delim save with
  | EmptyString => None
  | String c s' => Some (scan_token delim (String c s'))
  end.

(** The delimiter set the tokenizer passes to [strtok]: space and newline. *)
Definition DELIM : string := String SP (String LF EmptyString).

Definition TOKENS_SIZE : nat := 64.

(** Behaviours the C standard leaves undefined, made observable. *)
Inductive undefined : Set :=
| WriteOutOfBounds (index : nat)
| ReadOutOfBounds (index : nat)
| NullPointer.

(** A call that either returns or runs into undefined behaviour. *)
Inductive checked (A : Type) : Type :=
| Ok (a : A)
| Undef (u : undefined).
Arguments Ok {A} a.
Arguments Undef {A} u.

(** A [char **] of [TOKENS_SIZE] entries; [None] is a NULL entry. *)
Abbreviation token_array := (list (option string)).

(** [tokens[i]] *)
Definition entry (tokens : token_array) (i : nat) : option string :=
  default None (tokens !! i).

(** Keeps the equation of a scrutinee in a [with] clause. *)
Definition inspect {A : Type} (a : A) : {b : A | a = b} := exist _ a eq_refl.

(** The [while (token != NULL)] loop of [tokenize]; each round stores the
    current token at [token_i] and asks [strtok] for the next one.  The
    store is checked against the size of the allocation. *)
Equations? tokenize_loop (save : string) (token_i : nat) (tokens : token_array)
  : checked token_array by wf (String.length save) lt :=
  tokenize_loop save token_i tokens with inspect (strtok save DELIM) => {
    | exist _ None _ => Ok tokens
    | exist _ (Some (token, save')) Heq =>
        if (token_i <? TOKENS_SIZE)%nat
        then tokenize_loop save' (S token_i) (<[token_i := Some token]> tokens)
        else Undef (WriteOutOfBounds token_i) }.
Proof.
  clear tokenize_loop. unfold strtok in Heq.
  assert (Hskip : forall s, (String.length (skip_delims DELIM s) <= String.length s)%nat).
  { induction s as [|c s IH]; simpl; [lia|].
    destruct (Ascii.eqb c NUL); simpl; [lia|].
    destruct (is_delim _ c); simpl; lia. }
  assert (Hscan : forall s, (String.length (snd (scan_token DELIM s)) <= String.length s)%nat).
  { induction s as [|c s IH]; simpl; [lia|].
    destruct (Ascii.eqb c NUL); simpl; [lia|].
    destruct (is_delim _ c); simpl; [lia|].
    destruct (scan_token _ s); simpl in *; lia. }
  assert (Hhead : forall t c s, skip_delims DELIM t = String c s ->
                   Ascii.eqb c NUL = false /\ is_delim DELIM c = false).
  { induction t as [|d t IH]; intros c s Hs; simpl in Hs; [discriminate|].
    destruct (Ascii.eqb d NUL) eqn:E1; [discriminate|].
    destruct (is_delim DELIM d) eqn:E2; [exact (IH _ _ Hs)|].
    injection Hs as -> ->. auto. }
  assert (Hlt : forall c s, skip_delims DELIM save = String c s ->
                 (String.length (snd (scan_token DELIM (String c s))) < String.length save)%nat).
  { intros c s Hs. pose proof (Hskip save) as Hle. rewrite Hs in Hle.
    destruct (Hhead _ _ _ Hs) as [Hc1 Hc2].
    cbn [scan_token]. rewrite Hc1, Hc2.
    pose proof (Hscan s) as Hs'. destruct (scan_token DELIM s); simpl in *; lia. }
  destruct (skip_delims DELIM save) as [|c s] eqn:Hs; [discriminate|].
  assert (Heq' : scan_token DELIM (String c s) = (token, save')) by congruence.
  specialize (Hlt c s eq_refl). rewrite Heq' in Hlt. exact Hlt.
Qed.

Definition tokenize (command : string) : checked token_array :=
  tokenize_loop command 0 (replicate TOKENS_SIZE None).

(** ** The line source *)

Definition LINE_BUFFER_SIZE : nat := 1024.

(** A [FILE *] opened for reading is modelled by the bytes not yet read;
    the empty string is end of file.  [read_line n] takes bytes up to and
    including the first newline, at most [n] of them. *)
Fixpoint read_line (n : nat) (input : string) {struct input} : string * string :=
  match n, input with
  | S n', String c input' =>
      if Ascii.eqb c LF then (String c EmptyString, input')
      else let '(line, rest) := read_line n' input' in (String c line, rest)
  | _, _ => (EmptyString, input)
  end.

(** [fgets(buffer, size, input)]: NULL ([None]) at end of file, otherwise
    the line read into the buffer and the rest of the stream. *)
Definition fgets (size : nat) (input : string) : option (string * string) :=
  match input with
  | EmptyString => None
  | String _ _ => Some (read_line (size - 1) input)
  end.

(** [get_line]: [Ok None] is the NULL result. *)
Definition get_line (input : string) : checked (option token_array) * string :=
  match fgets LINE_BUFFER_SIZE input with
  | None => (Ok None, input)
  | Some (line_buffer, input') =>
      match tokenize line_buffer with
      | Undef u => (Undef u, input')
      | Ok tokens =>
          match entry tokens 0 with
          | None => (Ok None, input')
          | Some _ => (Ok (Some tokens), input')
          end
      end
  end.

(** ** Process-wide state and the operating system *)

Inductive stream : Set := Stdout | Stderr.

Record world : Type := mkWorld {
  env : gmap string string;            (* the environment *)
  cwd : string;                        (* the working directory *)
  output : list (stream * string);     (* what the shell wrote, oldest first *)
  forks : nat                          (* calls of fork() made so far *)
}.

Definition set_env (e : gmap string string) (w : world) : world :=
  mkWorld e (cwd w) (output w) (forks w).
Definition set_cwd (d : string) (w : world) : world :=
  mkWorld (env w) d (output w) (forks w).
Definition print (fd : stream) (msg : string) (w : world) : world :=
  mkWorld (env w) (cwd w) (output w ++ [(fd, msg)]) (forks w).
Definition count_fork (w : world) : world :=
  mkWorld (env w) (cwd w) (output w) (S (forks w)).

(** What the kernel answers to the process being modelled.  [fork_ret n]
    is the value its [n]-th call of [fork] returns: negative when no
    process could be created, 0 when the modelled process is the new
    child, the child's pid when it is the parent; after a successful fork
    both processes go on from the same state, each with its own value.
    [execvp_ok w file] says whether [execvp] finds and starts [file];
    [chdir_to d path] is the new working directory, or [None] when
    [chdir] fails.  [waitpid] is taken to return, i.e. a child the shell
    waits for ends; what a child reads and writes on the streams it
    inherits is not part of [world]; [malloc] is taken to succeed. *)
Record os : Type := mkOs {
  fork_ret : nat -> Z;
  execvp_ok : world -> string -> bool;
  chdir_to : string -> string -> option string
}.

(** libc's [setenv] and [unsetenv] on the environment seen as a map from
    names to values.  Both fail with EINVAL, changing nothing, on an empty
    name or a name containing '='. *)
Definition valid_name (name : string) : bool :=
  negb (String.eqb name EmptyString)
  && negb (existsb (Ascii.eqb "="%char) (list_ascii_of_string name)).

Definition setenv (name value : string) (overwrite : Z) (e : gmap string string)
  : Z * gmap string string :=
  if valid_name name then
    match e !! name with
    | Some _ => if overwrite =? 0 then (0, e) else (0, <[name := value]> e)
    | None => (0, <[name := value]> e)
    end
  else (-1, e).

Definition unsetenv (name : string) (e : gmap string string)
  : Z * gmap string string :=
  if valid_name name then (0, delete name e) else (-1, e).

(** ** The dispatcher *)

(** What a call made by the shell process does: return a value, never
    return because [execvp] replaced the process image, or run into
    undefined behaviour. *)
Inductive outcome (A : Type) : Type :=
| Ret (a : A)
| Exec
| Fail (u : undefined).
Arguments Ret {A} a.
Arguments Exec {A}.
Arguments Fail {A} u.

Definition nl : string := String LF EmptyString.

Definition USAGE_SETENV : string := "Expected usage: setenv <variable> <value>" +:+ nl.
Definition USAGE_UNSETENV : string := "Expected usage: unsetenv <variable>" +:+ nl.
Definition USAGE_CD : string := "Expected usage: cd <path>" +:+ nl.
Definition ERROR_EXEC : string := "Error creating new process." +:+ nl.
Definition ERROR_FORK : string := "Error forking." +:+ nl.

(** The walk to the first NULL entry that [cleanup] makes to free the
    tokens and [execvp] makes to read its argument vector: the index of
    that entry, or a read past the end of the array. *)
Fixpoint first_null (curr : nat) (tokens : token_array) : checked nat :=
  match tokens with
  | [] => Undef (ReadOutOfBounds curr)
  | None :: _ => Ok curr
  | Some _ :: tokens' => first_null (S curr) tokens'
  end.

(** The [cid == 0] branch: [execvp(tokens[0], tokens)] in the new child. *)
Definition child_exec (sys : os) (command : string) (tokens : token_array)
    (w : world) : outcome Z * world :=
  match first_null 0 tokens with
  | Undef u => (Fail u, w)
  | Ok _ =>
      if execvp_ok sys w command then (Exec, w)
      else (Ret (-1), print Stderr ERROR_EXEC w)
  end.

(** [run_command]: 1 for normal, 0 for exit, negative for failure. *)
Definition run_command (sys : os) (tokens : token_array) (w : world)
  : outcome Z * world :=
  let ret_val := 1 in
  match entry tokens 0 with
  | None => (Fail NullPointer, w)
  | Some command =>
      match check_command command with
      | SETENV =>
          match entry tokens 1, entry tokens 2 with
          | Some name, Some value =>
              (Ret ret_val, set_env (snd (setenv name value 1 (env w))) w)
          | _, _ => (Ret ret_val, print Stdout USAGE_SETENV w)
          end
      | UNSETENV =>
          match entry tokens 1 with
          | Some name => (Ret ret_val, set_env (snd (unsetenv name (env w))) w)
          | None => (Ret ret_val, print Stdout USAGE_UNSETENV w)
          end
      | CD =>
          match entry tokens 1 with
          | Some path =>
              match chdir_to sys (cwd w) path with
              | Some d => (Ret ret_val, set_cwd d w)
              | None => (Ret ret_val, w)
              end
          | None => (Ret ret_val, print Stdout USAGE_CD w)
          end
      | EXIT => (Ret 0, w)
      | EXTERNAL =>
          let cid := fork_ret sys (forks w) in
          let w := count_fork w in
          match (if cid =? 0 then child_exec sys command tokens w
                 else (Ret ret_val, w)) with
          | (Ret ret_val, w) =>
              let '(ret_val, w) :=
                if cid <? 0 then (-1, print Stderr ERROR_FORK w)
                else (ret_val, w) in
              (* waitpid(cid, NULL, 0) *)
              (Ret ret_val, w)
          | stopped => stopped
          end
      end
  end.

(** [cleanup]: free every entry up to the first NULL, then the array. *)
Definition cleanup (tokens : token_array) : checked unit :=
  match first_null 0 tokens with
  | Ok _ => Ok tt
  | Undef u => Undef u
  end.

(** ** The startup pass and the interactive loop *)

(** The [while (1)] loop of [initalize] over the opened resource file. *)
Equations? initalize_loop (sys : os) (kapishrc : string) (w : world)
  : outcome unit * world by wf (String.length kapishrc) lt :=
  initalize_loop sys kapishrc w with inspect (get_line kapishrc) => {
    | exist _ (Undef u, _) _ => (Fail u, w)
    | exist _ (Ok None, _) _ => (Ret tt, w)
    | exist _ (Ok (Some tokens), kapishrc') Heq =>
        match run_command sys tokens w with
        | (Ret _, w') =>
            match cleanup tokens with
            | Ok _ => initalize_loop sys kapishrc' w'
            | Undef u => (Fail u, w')
            end
        | (Exec, w') => (Exec, w')
        | (Fail u, w') => (Fail u, w')
        end }.
Proof.
  clear initalize_loop.
  assert (Hread : forall n s, (String.length (snd (read_line n s)) <= String.length s)%nat).
  { induction n as [|n IH]; intros [|d s]; simpl; try lia.
    destruct (Ascii.eqb d LF); simpl; [lia|].
    specialize (IH s). destruct (read_line n s); simpl in *; lia. }
  assert (Hlt : forall c s, (String.length (snd (read_line (S 1022) (String c s)))
                             < String.length (String c s))%nat).
  { intros c s. cbn [read_line].
    destruct (Ascii.eqb c LF); simpl; [lia|].
    specialize (Hread 1022%nat s). destruct (read_line 1022 s); simpl in *; lia. }
  unfold get_line, fgets in Heq.
  destruct kapishrc as [|c rest]; [discriminate|].
  specialize (Hlt c rest).
  change (LINE_BUFFER_SIZE - 1)%nat with (S 1022) in Heq.
  destruct (read_line (S 1022) (String c rest)) as [line rest'].
  destruct (tokenize line) as [arr|]; [|discriminate].
  destruct (entry arr 0); [|discriminate].
  injection Heq as _ <-. exact Hlt.
Qed.

(** [initalize].  [kapishrc] is the content of the resource file
    [/home/<login>/.kapishrc], [None] when [fopen] fails.  Installing the
    SIGINT handler and building the path change nothing of the state
    modelled. *)
Definition initalize (sys : os) (kapishrc : option string) (w : world)
  : outcome Z * world :=
  match kapishrc with
  | None => (Ret 0, w)
  | Some file =>
      match initalize_loop sys file w with
      | (Ret _, w') => (Ret 0, w')
      | (Exec, w') => (Exec, w')
      | (Fail u, w') => (Fail u, w')
      end
  end.

(** The state of the interactive loop between two rounds. *)
Record loop_state : Type := mkLoop {
  program_status : Z;
  stdin : string;
  shell : world
}.

(** One round of [while (program_status > 0)], entered with the condition
    true: print the prompt, read a line, dispatch it. *)
Definition loop_body (sys : os) (st : loop_state) : outcome loop_state :=
  let w := print Stdout "? " (shell st) in
  match get_line (stdin st) with
  | (Undef u, _) => Fail u
  | (Ok None, stdin') => Ret (mkLoop (program_status st) stdin' w)
  | (Ok (Some tokens), stdin') =>
      match run_command sys tokens w with
      | (Ret ret_val, w') =>
          match cleanup tokens with
          | Ok _ => Ret (mkLoop ret_val stdin' w')
          | Undef u => Fail u
          end
      | (Exec, _) => Exec
      | (Fail u, _) => Fail u
      end
  end.

(** [loop] from a given state; [None] when [fuel] rounds were not enough
    to leave the loop. *)
Fixpoint loop_from (fuel : nat) (sys : os) (st : loop_state)
  : option (outcome Z * loop_state) :=
  if program_status st >? 0 then
    match fuel with
    | O => None
    | S fuel' =>
        match loop_body sys st with
        | Ret st' => loop_from fuel' sys st'
        | Exec => Some (Exec, st)
        | Fail u => Some (Fail u, st)
        end
    end
  else Some (Ret (program_status st), st).

Definition loop (fuel : nat) (sys : os) (input : string) (w : world)
  : option (outcome Z * loop_state) :=
  loop_from fuel sys (mkLoop 1 input w).

(** The status a process that calls [exit(ret_val)] ends with. *)
Definition exit_status (ret_val : Z) : Z := ret_val mod 256.

(** [main]: the exit status of the process, [None] when the interactive
    loop is still running after [fuel] rounds. *)
Definition main (fuel : nat) (sys : os) (kapishrc : option string)
    (input : string) (w : world) : option (outcome Z) :=
  match initalize sys kapishrc w with
  | (Ret ret_val, w') =>
      if negb (ret_val =? 0) then Some (Ret (exit_status ret_val))
      else
        match loop fuel sys input w' with
        | None => None
        | Some (Ret ret_val, _) =>
            if negb (ret_val =? 0) then Some (Ret (exit_status ret_val))
            else Some (Ret 0)
        | Some (Exec, _) => Some Exec
        | Some (Fail u, _) => Some (Fail u)
        end
  | (Exec, _) => Some Exec
  | (Fail u, _) => Some (Fail u)
  end.

(** ** Reference functions and inputs used in the statements *)

(** The tokens successive calls of [strtok] yield from [save] on, at most
    [fuel] of them; every call consumes at least one byte, so the length
    of the string is fuel enough. *)
Fixpoint strtok_seq (fuel : nat) (save : string) : list string :=
  match fuel with
  | O => []
  | S fuel' =>
      match strtok save DELIM with
      | None => []
      | Some (token, save') => token :: strtok_seq fuel' save'
      end
  end.

Definition tokens_of (line : string) : list string :=
  strtok_seq (String.length line) line.

(** Every byte of [s] satisfies [p]. *)
Fixpoint all_chars (p : ascii -> bool) (s : string) : bool :=
  match s with
  | EmptyString => true
  | String c s' => p c && all_chars p s'
  end.

(** A byte that can be part of a token: neither NUL nor a delimiter. *)
Definition token_char (c : ascii) : bool :=
  negb (Ascii.eqb c NUL) && negb (is_delim DELIM c).

(** The array [tokenize] builds for a list of tokens that fits: the tokens
    followed by NULL entries up to [TOKENS_SIZE]. *)
Definition argv (toks : list string) : token_array :=
  (Some <$> toks) ++ replicate (TOKENS_SIZE - List.length toks) None.

Definition many (n : nat) (s : string) : string :=
  foldr String.append EmptyString (replicate n s).

Definition world0 : world := mkWorld ∅ "/" [] 0.

(** A kernel in which the modelled process is the parent of every fork
    and no program can be found. *)
Definition parent_no_program : os :=
  mkOs (fun _ => 4242) (fun _ _ => false) (fun _ _ => None).

(** A kernel in which every fork fails. *)
Definition no_fork : os :=
  mkOs (fun _ => -1) (fun _ _ => true) (fun _ _ => None).

(** A kernel in which the modelled process is the new child of every fork
    and no program can be found. *)
Definition child_no_program : os :=
  mkOs (fun _ => 0) (fun _ _ => false) (fun _ _ => None).

(** The tokens of a list joined by single spaces. *)
Fixpoint unwords (toks : list string) : string :=
  match toks with
  | [] => EmptyString
  | [token] => token
  | token :: toks' => token +:+ String SP (unwords toks')
  end.

(** The modelled process is the parent of every fork it makes: no fork
    fails and the process is never the new child. *)
Definition always_parent (sys : os) : Prop :=
  forall n : nat, 0 < fork_ret sys n.

(** * Properties *)

(** ** C strings and the classifier *)

Section CStringFacts.

Lemma uchar_inj c1 c2 : uchar c1 = uchar c2 -> c1 = c2.
Proof.
  unfold uchar. intros H. apply N2Z.inj in H.
  rewrite <- (ascii_N_embedding c1), <- (ascii_N_embedding c2). now rewrite H.
Qed.

Lemma uchar_diff c1 c2 : Ascii.eqb c1 c2 = false -> uchar c1 - uchar c2 <> 0.
Proof.
  intros Hne Hz. apply Ascii.eqb_neq in Hne. apply Hne, uchar_inj. lia.
Qed.

Lemma cstr_idem s : cstr (cstr s) = cstr s.
Proof.
  induction s as [|c s IH]; simpl; [reflexivity|].
  destruct (Ascii.eqb c NUL) eqn:E; simpl; [reflexivity|]. now rewrite E, IH.
Qed.

(** [strncmp] is 0 exactly when the two C strings agree on their first
    [n] bytes. *)
Lemma strncmp_zero_iff n : forall s1 s2,
  strncmp s1 s2 n = 0 <-> take_str n (cstr s1) = take_str n (cstr s2).
Proof.
  induction n as [|n IH]; intros s1 s2; [simpl; tauto|].
  cbn [strncmp].
  destruct s1 as [|c1 t1], s2 as [|c2 t2]; cbn [peek advance cstr].
  - simpl. tauto.
  - rewrite (Ascii.eqb_sym NUL c2).
    destruct (Ascii.eqb c2 NUL) eqn:E2.
    + simpl. tauto.
    + split; [|discriminate]. intros H. exfalso.
      refine (uchar_diff NUL c2 _ H). now rewrite Ascii.eqb_sym.
  - destruct (Ascii.eqb c1 NUL) eqn:E1.
    + simpl. tauto.
    + split; [|discriminate]. intros H. exfalso. exact (uchar_diff c1 NUL E1 H).
  - destruct (Ascii.eqb c1 c2) eqn:E12.
    + apply Ascii.eqb_eq in E12. subst c2.
      destruct (Ascii.eqb c1 NUL) eqn:E1; [simpl; tauto|].
      cbn [take_str]. rewrite IH. split; [congruence|]. now intros [= ->].
    + split; [intros H; exfalso; exact (uchar_diff c1 c2 E12 H)|].
      apply Ascii.eqb_neq in E12.
      destruct (Ascii.eqb c1 NUL) eqn:E1, (Ascii.eqb c2 NUL) eqn:E2;
        cbn [take_str]; try discriminate.
      * apply Ascii.eqb_eq in E1, E2. congruence.
      * intros [= -> _]. congruence.
Qed.

Lemma take_str_short n : forall k t,
  (String.length k < n)%nat -> take_str n t = k <-> t = k.
Proof.
  induction n as [|n IH]; intros k t Hlen; [lia|].
  destruct t as [|c t], k as [|d k]; cbn [take_str]; try (split; congruence).
  simpl in Hlen. split.
  - intros [= -> Ht]. f_equal. apply (IH k t); [lia|exact Ht].
  - intros [= -> ->]. f_equal. apply (IH k k); [lia|reflexivity].
Qed.

(** Comparing a reserved name over one byte more than its length is
    whole-string equality. *)
Lemma strncmp_name name command n :
  cstr name = name -> n = S (String.length name) ->
  strncmp name command n = 0 <-> cstr command = name.
Proof.
  intros Hname ->. rewrite strncmp_zero_iff, Hname.
  assert (Hk : take_str (S (String.length name)) name = name).
  { apply take_str_short; [lia|reflexivity]. }
  rewrite Hk. split.
  - intros H. symmetry in H. apply take_str_short in H; [exact H|lia].
  - intros ->. now rewrite Hk.
Qed.

End CStringFacts.

Section Classifier.

Lemma check_command_tests command :
  (strncmp CD_COMMAND command 3 =? 0) = String.eqb (cstr command) "cd"
  /\ (strncmp EXIT_COMMAND command 5 =? 0) = String.eqb (cstr command) "exit"
  /\ (strncmp SETENV_COMMAND command 7 =? 0) = String.eqb (cstr command) "setenv"
  /\ (strncmp UNSETENV_COMMAND command 9 =? 0) = String.eqb (cstr command) "unsetenv".
Proof.
  repeat split.
  all: match goal with
       | |- (strncmp ?name _ ?n =? 0) = String.eqb _ ?lit =>
           pose proof (strncmp_name name command n eq_refl eq_refl) as H;
           change name with lit in *;
           destruct (String.eqb_spec (cstr command) lit) as [E|E];
           [apply Z.eqb_eq, H, E | apply Z.eqb_neq; intros Hz; apply E, H, Hz]
       end.
Qed.

(** C2: [check_command] classifies by exact, case-sensitive equality of
    the whole token with one of "setenv", "unsetenv", "cd" and "exit":
    on every string it agrees with the whole-token classifier applied to
    the C string its argument denotes; "exit" is EXIT, "setenv" is SETENV,
    "cdx" is EXTERNAL, a name in another case is EXTERNAL, and EXTERNAL is
    the kind of exactly the strings that are none of the four names. *)
Theorem check_command_exact :
  (forall command : string, check_command command = classify_exact (cstr command))
  /\ check_command "exit" = EXIT
  /\ check_command "setenv" = SETENV
  /\ check_command "unsetenv" = UNSETENV
  /\ check_command "cd" = CD
  /\ check_command "cdx" = EXTERNAL
  /\ check_command "Exit" = EXTERNAL
  /\ check_command "" = EXTERNAL
  /\ (forall command : string,
        check_command command = EXTERNAL <->
        cstr command <> "setenv" /\ cstr command <> "unsetenv"
        /\ cstr command <> "cd" /\ cstr command <> "exit")
  /\ (forall command : string,
        nul_free command ->
        command <> "setenv" -> command <> "unsetenv" ->
        command <> "cd" -> command <> "exit" ->
        check_command command = EXTERNAL).
Proof.
  assert (Hexact : forall command, check_command command = classify_exact (cstr command)).
  { intros command. unfold check_command, classify_exact.
    destruct (check_command_tests command) as (-> & -> & -> & ->).
    destruct (String.eqb_spec (cstr command) "cd") as [E1|E1],
             (String.eqb_spec (cstr command) "exit") as [E2|E2],
             (String.eqb_spec (cstr command) "setenv") as [E3|E3],
             (String.eqb_spec (cstr command) "unsetenv") as [E4|E4];
      try reflexivity; congruence. }
  split; [exact Hexact|].
  do 7 (split; [reflexivity|]).
  assert (Hother : forall command : string,
            check_command command = EXTERNAL <->
            cstr command <> "setenv" /\ cstr command <> "unsetenv"
            /\ cstr command <> "cd" /\ cstr command <> "exit");
    [|split; [exact Hother|];
      intros command Hnul; unfold nul_free in Hnul;
      intros; apply Hother; rewrite Hnul; tauto].
  intros command. rewrite Hexact. unfold classify_exact.
  destruct (String.eqb_spec (cstr command) "setenv") as [E1|E1];
    [split; [discriminate | tauto]|].
  destruct (String.eqb_spec (cstr command) "unsetenv") as [E2|E2];
    [split; [discriminate | tauto]|].
  destruct (String.eqb_spec (cstr command) "cd") as [E3|E3];
    [split; [discriminate | tauto]|].
  destruct (String.eqb_spec (cstr command) "exit") as [E4|E4];
    [split; [discriminate | tauto]|].
  tauto.
Qed.

Lemma check_command_exact_witness :
  check_command "ls" = EXTERNAL /\ check_command "cd/" = EXTERNAL.
Proof.
  split.
  - apply (proj2 (proj2 (proj2 (proj2 (proj2 (proj2 (proj2 (proj2
             check_command_exact)))))))); [reflexivity | discriminate ..].
  - apply (proj2 (proj2 (proj2 (proj2 (proj2 (proj2 (proj2 (proj2
             check_command_exact)))))))); [reflexivity | discriminate ..].
Defined.

End Classifier.

(** ** The tokenizer *)

Section Tokenizer.

Lemma tokenize_loop_eq save token_i tokens :
  tokenize_loop save token_i tokens =
  match strtok save DELIM with
  | None => Ok tokens
  | Some (token, save') =>
      if (token_i <? TOKENS_SIZE)%nat
      then tokenize_loop save' (S token_i) (<[token_i := Some token]> tokens)
      else Undef (WriteOutOfBounds token_i)
  end.
Proof.
  rewrite tokenize_loop_equation_1. unfold inspect.
  assert (Hgen : forall o (H : strtok save DELIM = o),
    tokenize_loop_unfold_clause_1 save (exist _ o H) token_i tokens =
    match o with
    | None => Ok tokens
    | Some (token, save') =>
        if (token_i <? TOKENS_SIZE)%nat
        then tokenize_loop save' (S token_i) (<[token_i := Some token]> tokens)
        else Undef (WriteOutOfBounds token_i)
    end).
  { intros [[token save']|] H; simp tokenize_loop; reflexivity. }
  apply Hgen.
Qed.

(** *** What one call of [strtok] does *)

Lemma delim_not_nul c : is_delim DELIM c = true -> Ascii.eqb c NUL = false.
Proof.
  intros H. destruct (Ascii.eqb c NUL) eqn:E; [|reflexivity].
  apply Ascii.eqb_eq in E. subst c. discriminate H.
Qed.

Lemma token_char_spec c :
  token_char c = true <-> Ascii.eqb c NUL = false /\ is_delim DELIM c = false.
Proof.
  unfold token_char. rewrite andb_true_iff, !negb_true_iff. tauto.
Qed.

Lemma skip_delims_length s :
  (String.length (skip_delims DELIM s) <= String.length s)%nat.
Proof.
  induction s as [|c s IH]; simpl; [lia|].
  destruct (Ascii.eqb c NUL); simpl; [lia|].
  destruct (is_delim DELIM c); simpl; lia.
Qed.

Lemma skip_delims_head s : forall c t,
  skip_delims DELIM s = String c t -> token_char c = true.
Proof.
  induction s as [|d s IH]; intros c t Hs; simpl in Hs; [discriminate|].
  destruct (Ascii.eqb d NUL) eqn:E1; [discriminate|].
  destruct (is_delim DELIM d) eqn:E2; [exact (IH _ _ Hs)|].
  injection Hs as -> ->. now apply token_char_spec.
Qed.

Lemma scan_token_length s :
  (String.length (snd (scan_token DELIM s)) <= String.length s)%nat.
Proof.
  induction s as [|c s IH]; simpl; [lia|].
  destruct (Ascii.eqb c NUL); simpl; [lia|].
  destruct (is_delim DELIM c); simpl; [lia|].
  destruct (scan_token DELIM s); simpl in *; lia.
Qed.

Lemma scan_token_chars s :
  all_chars token_char (fst (scan_token DELIM s)) = true.
Proof.
  induction s as [|c s IH]; simpl; [reflexivity|].
  destruct (Ascii.eqb c NUL) eqn:E1; simpl; [reflexivity|].
  destruct (is_delim DELIM c) eqn:E2; simpl; [reflexivity|].
  destruct (scan_token DELIM s) as [token save]; simpl in *.
  rewrite IH, andb_true_r. now apply token_char_spec.
Qed.

(** A token [strtok] returns is not empty, holds neither a delimiter nor
    a NUL, and the saved pointer has moved on. *)
Lemma strtok_some save token save' :
  strtok save DELIM = Some (token, save') ->
  token <> EmptyString /\ all_chars token_char token = true
  /\ (String.length save' < String.length save)%nat.
Proof.
  unfold strtok. intros H.
  pose proof (skip_delims_length save) as Hlen.
  destruct (skip_delims DELIM save) as [|c s] eqn:Hs; [discriminate|].
  apply skip_delims_head in Hs.
  assert (H' : scan_token DELIM (String c s) = (token, save')) by congruence.
  clear H.
  pose proof (scan_token_chars (String c s)) as Hchars.
  pose proof (scan_token_length s) as Hrest.
  rewrite H' in Hchars. cbn [scan_token] in H'.
  apply token_char_spec in Hs as [E1 E2]. rewrite E1, E2 in H'.
  destruct (scan_token DELIM s) as [t r]. injection H' as <- <-.
  simpl in *. repeat split; [discriminate | exact Hchars | lia].
Qed.

Lemma skip_delims_run run s :
  all_chars (is_delim DELIM) run = true ->
  skip_delims DELIM (run +:+ s) = skip_delims DELIM s.
Proof.
  induction run as [|c run IH]; simpl; [reflexivity|].
  intros [Hc Hrun]%andb_true_iff.
  now rewrite (delim_not_nul c Hc), Hc, IH.
Qed.

Lemma skip_delims_token c s :
  token_char c = true -> skip_delims DELIM (String c s) = String c s.
Proof. intros [H1 H2]%token_char_spec. simpl. now rewrite H1, H2. Qed.

Lemma scan_token_word word d rest :
  all_chars token_char word = true -> is_delim DELIM d = true ->
  scan_token DELIM (word +:+ String d rest) = (word, rest).
Proof.
  intros Hword Hd. induction word as [|c word IH]; simpl.
  - now rewrite (delim_not_nul d Hd), Hd.
  - simpl in Hword. apply andb_true_iff in Hword as [[H1 H2]%token_char_spec Hword].
    now rewrite H1, H2, (IH Hword).
Qed.

Lemma scan_token_last word :
  all_chars token_char word = true ->
  scan_token DELIM word = (word, EmptyString).
Proof.
  induction word as [|c word IH]; simpl; [reflexivity|].
  intros [[H1 H2]%token_char_spec Hword]%andb_true_iff.
  now rewrite H1, H2, (IH Hword).
Qed.

Lemma strtok_blank run :
  all_chars (is_delim DELIM) run = true -> strtok run DELIM = None.
Proof.
  intros Hrun. unfold strtok.
  assert (Hskip : skip_delims DELIM run = EmptyString).
  { induction run as [|c run IH]; simpl; [reflexivity|].
    simpl in Hrun. apply andb_true_iff in Hrun as [Hc Hrun].
    now rewrite (delim_not_nul c Hc), Hc, IH. }
  now rewrite Hskip.
Qed.

Lemma strtok_word run word d rest :
  all_chars (is_delim DELIM) run = true ->
  word <> EmptyString -> all_chars token_char word = true ->
  is_delim DELIM d = true ->
  strtok (run +:+ word +:+ String d rest) DELIM = Some (word, rest).
Proof.
  intros Hrun Hne Hword Hd. unfold strtok. rewrite (skip_delims_run _ _ Hrun).
  destruct word as [|c word]; [congruence|].
  assert (Hc : token_char c = true) by (simpl in Hword; now apply andb_true_iff in Hword).
  change (String c word +:+ String d rest) with (String c (word +:+ String d rest)).
  rewrite (skip_delims_token _ _ Hc).
  change (String c (word +:+ String d rest)) with (String c word +:+ String d rest).
  now rewrite (scan_token_word _ _ _ Hword Hd).
Qed.

Lemma strtok_last run word :
  all_chars (is_delim DELIM) run = true ->
  word <> EmptyString -> all_chars token_char word = true ->
  strtok (run +:+ word) DELIM = Some (word, EmptyString).
Proof.
  intros Hrun Hne Hword. unfold strtok. rewrite (skip_delims_run _ _ Hrun).
  destruct word as [|c word]; [congruence|].
  assert (Hc : token_char c = true) by (simpl in Hword; now apply andb_true_iff in Hword).
  rewrite (skip_delims_token _ _ Hc).
  now rewrite (scan_token_last _ Hword).
Qed.

(** *** The sequence of tokens of a line *)

Lemma strtok_seq_enough fuel1 : forall fuel2 save,
  (String.length save <= fuel1)%nat -> (String.length save <= fuel2)%nat ->
  strtok_seq fuel1 save = strtok_seq fuel2 save.
Proof.
  induction fuel1 as [|fuel1 IH]; intros fuel2 save H1 H2.
  - destruct save; [|simpl in H1; lia]. now destruct fuel2.
  - destruct fuel2 as [|fuel2].
    + destruct save; [reflexivity | simpl in H2; lia].
    + simpl. destruct (strtok save DELIM) as [[token save']|] eqn:E; [|reflexivity].
      apply strtok_some in E as (_ & _ & Hlt). f_equal. apply IH; lia.
Qed.

Lemma tokens_of_eq save :
  tokens_of save =
  match strtok save DELIM with
  | None => []
  | Some (token, save') => token :: tokens_of save'
  end.
Proof.
  unfold tokens_of. destruct save as [|c s]; [reflexivity|].
  cbn [String.length strtok_seq].
  destruct (strtok (String c s) DELIM) as [[token save']|] eqn:E; [|reflexivity].
  apply strtok_some in E as (_ & _ & Hlt). simpl in Hlt.
  f_equal. apply strtok_seq_enough; lia.
Qed.

Lemma tokens_of_blank run :
  all_chars (is_delim DELIM) run = true -> tokens_of run = [].
Proof. intros H. now rewrite tokens_of_eq, (strtok_blank run H). Qed.

Lemma tokens_of_word run word d rest :
  all_chars (is_delim DELIM) run = true ->
  word <> EmptyString -> all_chars token_char word = true ->
  is_delim DELIM d = true ->
  tokens_of (run +:+ word +:+ String d rest) = word :: tokens_of rest.
Proof.
  intros Hrun Hne Hword Hd.
  now rewrite tokens_of_eq, (strtok_word run word d rest Hrun Hne Hword Hd).
Qed.

Lemma tokens_of_last run word :
  all_chars (is_delim DELIM) run = true ->
  word <> EmptyString -> all_chars token_char word = true ->
  tokens_of (run +:+ word) = [word].
Proof.
  intros Hrun Hne Hword.
  now rewrite tokens_of_eq, (strtok_last run word Hrun Hne Hword).
Qed.

Lemma tokens_of_clean line :
  Forall (fun token => token <> EmptyString /\ all_chars token_char token = true)
         (tokens_of line).
Proof.
  remember (String.length line) as n eqn:Hn.
  revert line Hn. induction n as [n IH] using lt_wf_ind. intros line ->.
  rewrite tokens_of_eq.
  destruct (strtok line DELIM) as [[token save']|] eqn:E; [|constructor].
  apply strtok_some in E as (Hne & Hchars & Hlt).
  constructor; [split; assumption|]. exact (IH _ Hlt save' eq_refl).
Qed.

(** *** The token array *)

Lemma argv_length toks :
  (List.length toks <= TOKENS_SIZE)%nat -> List.length (argv toks) = TOKENS_SIZE.
Proof.
  intros H. unfold argv. rewrite length_app, length_fmap, length_replicate. lia.
Qed.

Lemma argv_snoc pre token :
  (List.length pre < TOKENS_SIZE)%nat ->
  <[List.length pre := Some token]> (argv pre) = argv (pre ++ [token]).
Proof.
  intros Hlt. unfold argv.
  rewrite fmap_app, length_app. cbn [fmap list_fmap List.length].
  replace (TOKENS_SIZE - List.length pre)%nat
    with (S (TOKENS_SIZE - (List.length pre + 1)))%nat by lia.
  cbn [replicate]. rewrite <- (length_fmap Some pre) at 1.
  rewrite (insert_app_r_alt _ _ (List.length (Some <$> pre))) by lia.
  rewrite Nat.sub_diag. cbn [insert list_insert]. now rewrite <- app_assoc.
Qed.

Lemma entry_argv toks i :
  (i < TOKENS_SIZE)%nat -> entry (argv toks) i = toks !! i.
Proof.
  intros Hi. unfold entry, argv.
  destruct (toks !! i) as [token|] eqn:E.
  - rewrite lookup_app_l by (rewrite length_fmap; now apply lookup_lt_Some in E).
    now rewrite list_lookup_fmap, E.
  - apply lookup_ge_None in E.
    rewrite lookup_app_r by (rewrite length_fmap; lia).
    destruct (replicate _ _ !! _) as [o|] eqn:R; [|reflexivity].
    now apply lookup_replicate in R as [-> _].
Qed.

Lemma first_null_argv toks :
  (List.length toks < TOKENS_SIZE)%nat ->
  first_null 0 (argv toks) = Ok (List.length toks).
Proof.
  intros Hlt. unfold argv.
  replace (TOKENS_SIZE - List.length toks)%nat
    with (S (TOKENS_SIZE - List.length toks - 1))%nat by lia.
  cbn [replicate]. generalize (replicate (TOKENS_SIZE - List.length toks - 1) (@None string)).
  intros tail. clear Hlt.
  enough (Hgen : forall curr,
    first_null curr ((Some <$> toks) ++ None :: tail) = Ok (curr + List.length toks)%nat)
    by exact (Hgen 0%nat).
  induction toks as [|token toks IH]; intros curr; simpl.
  - f_equal. lia.
  - rewrite IH. f_equal. lia.
Qed.

Lemma first_null_full toks :
  first_null 0 (Some <$> toks) = Undef (ReadOutOfBounds (List.length toks)).
Proof.
  enough (Hgen : forall curr,
    first_null curr (Some <$> toks) = Undef (ReadOutOfBounds (curr + List.length toks)))
    by exact (Hgen 0%nat).
  induction toks as [|token toks IH]; intros curr; simpl.
  - f_equal. f_equal. lia.
  - rewrite IH. f_equal. f_equal. lia.
Qed.

(** The loop stores the tokens of the rest of the line behind those
    already stored, and writes past the array at the 65th. *)
Lemma tokenize_loop_spec save : forall pre,
  (List.length pre <= TOKENS_SIZE)%nat ->
  tokenize_loop save (List.length pre) (argv pre) =
  if (List.length (pre ++ tokens_of save) <=? TOKENS_SIZE)%nat
  then Ok (argv (pre ++ tokens_of save))
  else Undef (WriteOutOfBounds TOKENS_SIZE).
Proof.
  remember (String.length save) as n eqn:Hn.
  revert save Hn. induction n as [n IH] using lt_wf_ind. intros save -> pre Hpre.
  rewrite tokenize_loop_eq, tokens_of_eq.
  destruct (strtok save DELIM) as [[token save']|] eqn:E.
  - apply strtok_some in E as (_ & _ & Hlt).
    destruct (Nat.ltb_spec (List.length pre) TOKENS_SIZE) as [Hi|Hi].
    + rewrite argv_snoc by exact Hi.
      replace (S (List.length pre)) with (List.length (pre ++ [token]))
        by (rewrite length_app; simpl; lia).
      rewrite (IH _ Hlt save' eq_refl) by (rewrite length_app; simpl; lia).
      now rewrite <- app_assoc.
    + assert (List.length pre = TOKENS_SIZE) as -> by lia.
      destruct (Nat.leb_spec (List.length (pre ++ token :: tokens_of save')) TOKENS_SIZE)
        as [Hle|_]; [|reflexivity].
      rewrite length_app in Hle. simpl in Hle. lia.
  - rewrite app_nil_r.
    destruct (Nat.leb_spec (List.length pre) TOKENS_SIZE); [reflexivity|lia].
Qed.

(** [tokenize] stores the tokens of the line in order, followed by NULL
    entries, when there are at most 64; otherwise it writes entry 64 of
    an array of 64. *)
Lemma tokenize_spec command :
  tokenize command =
  if (List.length (tokens_of command) <=? TOKENS_SIZE)%nat
  then Ok (argv (tokens_of command))
  else Undef (WriteOutOfBounds TOKENS_SIZE).
Proof.
  unfold tokenize. exact (tokenize_loop_spec command [] (Nat.le_0_l _)).
Qed.

End Tokenizer.

Section TokenizerClaims.

Lemma is_delim_DELIM c : is_delim DELIM c = true <-> c = SP \/ c = LF.
Proof.
  unfold is_delim, DELIM. cbn [list_ascii_of_string existsb].
  rewrite !orb_true_iff, !Ascii.eqb_eq. intuition discriminate.
Qed.

(** C8: [tokenize] splits a line on runs of spaces and newlines, and a
    newline is never part of a token.  "setenv FOO bar\n" yields exactly
    setenv, FOO, bar; the empty line and a line of delimiters only yield
    no token.  The delimiters are the space and the newline; every token
    stored is non-empty and free of delimiters; a run of delimiters before
    a word is skipped and the word ends at the next delimiter or at the
    end of the line; the array holds the tokens in this order. *)
Theorem tokenize_splits :
  tokenize ("setenv FOO bar" +:+ nl) = Ok (argv ["setenv"; "FOO"; "bar"])
  /\ tokenize "" = Ok (argv [])
  /\ (forall run : string,
        all_chars (is_delim DELIM) run = true -> tokenize run = Ok (argv []))
  /\ (forall c : ascii, is_delim DELIM c = true <-> c = SP \/ c = LF)
  /\ (forall (line : string) (tokens : token_array) (i : nat) (token : string),
        tokenize line = Ok tokens -> tokens !! i = Some (Some token) ->
        token <> "" /\ all_chars token_char token = true)
  /\ (forall (run word : string) (d : ascii) (rest : string),
        all_chars (is_delim DELIM) run = true ->
        word <> "" -> all_chars token_char word = true ->
        is_delim DELIM d = true ->
        tokens_of (run +:+ word +:+ String d rest) = word :: tokens_of rest)
  /\ (forall run word : string,
        all_chars (is_delim DELIM) run = true ->
        word <> "" -> all_chars token_char word = true ->
        tokens_of (run +:+ word) = [word])
  /\ (forall line : string,
        (List.length (tokens_of line) <= TOKENS_SIZE)%nat ->
        tokenize line = Ok (argv (tokens_of line))).
Proof.
  assert (Hfit : forall line : string,
            (List.length (tokens_of line) <= TOKENS_SIZE)%nat ->
            tokenize line = Ok (argv (tokens_of line))).
  { intros line Hlen. rewrite tokenize_spec.
    now destruct (Nat.leb_spec (List.length (tokens_of line)) TOKENS_SIZE); [|lia]. }
  split; [rewrite tokenize_spec; reflexivity|].
  split; [rewrite tokenize_spec; reflexivity|].
  split.
  { intros run Hrun. rewrite tokenize_spec, (tokens_of_blank run Hrun). reflexivity. }
  split; [exact is_delim_DELIM|].
  split.
  { intros line tokens i token Htok Hi. rewrite tokenize_spec in Htok.
    destruct (List.length (tokens_of line) <=? TOKENS_SIZE)%nat; [|discriminate].
    injection Htok as <-. unfold argv in Hi.
    apply lookup_app_Some in Hi as [Hi|[_ Hi]].
    - rewrite list_lookup_fmap in Hi.
      destruct (tokens_of line !! i) as [t|] eqn:E; [|discriminate].
      injection Hi as <-.
      pose proof (tokens_of_clean line) as Hall.
      rewrite Forall_lookup in Hall. exact (Hall i t E).
    - apply lookup_replicate in Hi as [Hi _]. discriminate. }
  split; [exact tokens_of_word|].
  split; [exact tokens_of_last|].
  exact Hfit.
Qed.

Lemma tokenize_splits_witness :
  tokenize ("   " +:+ nl) = Ok (argv [])
  /\ tokens_of (" " +:+ "cd" +:+ String SP ("/tmp" +:+ nl)) = "cd" :: tokens_of ("/tmp" +:+ nl).
Proof.
  split.
  - apply (proj1 (proj2 (proj2 tokenize_splits))). reflexivity.
  - apply (proj1 (proj2 (proj2 (proj2 (proj2 (proj2 tokenize_splits)))))).
    + reflexivity.
    + discriminate.
    + reflexivity.
    + reflexivity.
Defined.

(** A line of more than 64 tokens makes [tokenize] store past the end of
    its array. *)
Lemma tokenize_overflow line :
  (TOKENS_SIZE < List.length (tokens_of line))%nat ->
  tokenize line = Undef (WriteOutOfBounds TOKENS_SIZE).
Proof.
  intros Hlen. rewrite tokenize_spec.
  now destruct (Nat.leb_spec (List.length (tokens_of line)) TOKENS_SIZE); [lia|].
Qed.

(** A line of exactly 64 tokens fills the array and leaves no NULL entry
    behind the last token: the walk of [cleanup] reads entry 64. *)
Lemma tokenize_full_array :
  tokenize (many 64 "a " +:+ nl) = Ok (Some <$> replicate 64 "a")
  /\ cleanup (Some <$> replicate 64 "a") = Undef (ReadOutOfBounds 64).
Proof.
  split.
  - rewrite tokenize_spec. reflexivity.
  - unfold cleanup. now rewrite first_null_full.
Qed.

(** C7: on a line of 65 tokens, which [get_line] can read, [tokenize]
    neither grows its array nor reports an error: the 65th token is
    stored at index 64 of an array of 64 entries. *)
Theorem tokenize_writes_past_the_array :
  (String.length (many 65 "a " +:+ nl) < LINE_BUFFER_SIZE)%nat
  /\ List.length (tokens_of (many 65 "a " +:+ nl)) = 65%nat
  /\ tokenize (many 65 "a " +:+ nl) = Undef (WriteOutOfBounds 64)
  /\ get_line (many 65 "a " +:+ nl) = (Undef (WriteOutOfBounds 64), "").
Proof.
  assert (Htok : tokenize (many 65 "a " +:+ nl) = Undef (WriteOutOfBounds 64)).
  { apply tokenize_overflow. vm_compute. lia. }
  split; [vm_compute; lia|].
  split; [reflexivity|].
  split; [exact Htok|].
  unfold get_line.
  replace (fgets LINE_BUFFER_SIZE (many 65 "a " +:+ nl))
    with (Some (many 65 "a " +:+ nl, "")) by (vm_compute; reflexivity).
  now rewrite Htok.
Qed.

End TokenizerClaims.

(** ** The line source *)

Section LineSource.

Lemma get_line_spec input :
  get_line input =
  match fgets LINE_BUFFER_SIZE input with
  | None => (Ok None, input)
  | Some (line, rest) =>
      if (List.length (tokens_of line) <=? TOKENS_SIZE)%nat
      then match tokens_of line with
           | [] => (Ok None, rest)
           | _ :: _ => (Ok (Some (argv (tokens_of line))), rest)
           end
      else (Undef (WriteOutOfBounds TOKENS_SIZE), rest)
  end.
Proof.
  unfold get_line.
  destruct (fgets LINE_BUFFER_SIZE input) as [[line rest]|]; [|reflexivity].
  rewrite tokenize_spec.
  destruct (List.length (tokens_of line) <=? TOKENS_SIZE)%nat; [|reflexivity].
  rewrite entry_argv by (unfold TOKENS_SIZE; lia).
  now destruct (tokens_of line).
Qed.

(** A line shorter than the buffer is read up to and including its
    newline. *)
Lemma read_line_newline n : forall body rest,
  all_chars (fun c => negb (Ascii.eqb c LF)) body = true ->
  (String.length body < n)%nat ->
  read_line n (body +:+ String LF rest) = (body +:+ nl, rest).
Proof.
  induction n as [|n IH]; intros body rest Hbody Hlen; [lia|].
  destruct body as [|c body]; simpl.
  - reflexivity.
  - simpl in Hbody, Hlen. apply andb_true_iff in Hbody as [Hc Hbody].
    apply negb_true_iff in Hc. rewrite Hc, (IH body rest Hbody) by lia.
    reflexivity.
Qed.

Lemma fgets_newline body rest :
  all_chars (fun c => negb (Ascii.eqb c LF)) body = true ->
  (String.length body < LINE_BUFFER_SIZE - 1)%nat ->
  fgets LINE_BUFFER_SIZE (body +:+ String LF rest) = Some (body +:+ nl, rest).
Proof.
  intros Hbody Hlen. unfold fgets.
  rewrite (read_line_newline _ body rest Hbody Hlen).
  now destruct body.
Qed.

Lemma spaces_blank blank :
  all_chars (Ascii.eqb SP) blank = true ->
  all_chars (fun c => negb (Ascii.eqb c LF)) blank = true
  /\ all_chars (is_delim DELIM) (blank +:+ nl) = true.
Proof.
  induction blank as [|c blank IH]; [split; reflexivity|].
  cbn [all_chars]. intros [Hc Hblank]%andb_true_iff.
  apply Ascii.eqb_eq in Hc. subst c.
  destruct (IH Hblank) as [IH1 IH2].
  change (String SP blank +:+ nl) with (String SP (blank +:+ nl)).
  cbn [all_chars]. rewrite IH1, IH2. split; reflexivity.
Qed.

(** C5 as stated fails: the blank lines "\n" and "   \n" make [get_line]
    return the NULL it returns at end of stream. *)
Lemma blank_line_and_eof_same_signal :
  get_line "" = (Ok None, "")
  /\ get_line nl = (Ok None, "")
  /\ get_line ("   " +:+ nl) = (Ok None, "")
  /\ fst (get_line ("   " +:+ nl)) = fst (get_line "").
Proof. repeat split; rewrite ?get_line_spec; reflexivity. Qed.

(** C5, amended: [get_line] returns NULL both at end of stream and for a
    blank line; the blank line is consumed, so that the stream left to a
    caller who asks again starts at the following line, while at end of
    stream nothing is consumed. *)
Theorem get_line_blank_or_eof (blank rest : string) :
  all_chars (Ascii.eqb SP) blank = true ->
  (String.length blank < LINE_BUFFER_SIZE - 1)%nat ->
  get_line "" = (Ok None, "")
  /\ get_line (blank +:+ nl +:+ rest) = (Ok None, rest).
Proof.
  intros Hblank Hlen. split; [reflexivity|].
  destruct (spaces_blank blank Hblank) as [Hnolf Hdelims].
  rewrite get_line_spec. unfold nl at 1.
  change (String LF "" +:+ rest) with (String LF rest).
  rewrite (fgets_newline blank rest Hnolf Hlen).
  now rewrite (tokens_of_blank _ Hdelims).
Qed.

Lemma get_line_blank_or_eof_witness :
  get_line "" = (Ok None, "")
  /\ get_line ("   " +:+ nl +:+ "exit" +:+ nl) = (Ok None, "exit" +:+ nl).
Proof.
  apply (get_line_blank_or_eof "   " ("exit" +:+ nl)).
  - reflexivity.
  - vm_compute. lia.
Defined.

(** C10: a token array [get_line] returns for a line of at most 63 tokens
    holds the tokens of the line, of which there is at least one and none
    is empty, followed by NULL entries only: its entry 0 is a non-empty
    string, the first NULL entry is the one right after the last token,
    and the walk of [cleanup] to that entry stays inside the array. *)
Theorem get_line_array_wellformed
    (input line rest : string) (tokens : token_array) :
  fgets LINE_BUFFER_SIZE input = Some (line, rest) ->
  (List.length (tokens_of line) <= 63)%nat ->
  fst (get_line input) = Ok (Some tokens) ->
  exists (first : string) (others : list string),
    tokens_of line = first :: others
    /\ tokens = argv (first :: others)
    /\ List.length tokens = TOKENS_SIZE
    /\ entry tokens 0 = Some first
    /\ Forall (fun token => token <> "") (first :: others)
    /\ (forall i, (i < List.length (first :: others))%nat ->
          entry tokens i = (first :: others) !! i)
    /\ entry tokens (List.length (first :: others)) = None
    /\ first_null 0 tokens = Ok (List.length (first :: others))
    /\ cleanup tokens = Ok tt.
Proof.
  intros Hfgets Hlen Hget. rewrite get_line_spec, Hfgets in Hget.
  destruct (Nat.leb_spec (List.length (tokens_of line)) TOKENS_SIZE) as [_|Hgt];
    [|unfold TOKENS_SIZE in Hgt; lia].
  pose proof (tokens_of_clean line) as Hclean.
  destruct (tokens_of line) as [|first others] eqn:Htoks; [discriminate|].
  injection Hget as <-. exists first, others.
  assert (Hnull : first_null 0 (argv (first :: others)) = Ok (List.length (first :: others))).
  { apply first_null_argv. unfold TOKENS_SIZE. lia. }
  split; [reflexivity|]. split; [reflexivity|].
  split; [apply argv_length; unfold TOKENS_SIZE; lia|].
  split; [now rewrite entry_argv by (unfold TOKENS_SIZE; lia)|].
  split; [eapply Forall_impl; [exact Hclean|]; now intros token [Hne _]|].
  split; [intros i Hi; apply entry_argv; unfold TOKENS_SIZE; lia|].
  split.
  { rewrite entry_argv by (unfold TOKENS_SIZE; lia). now apply lookup_ge_None. }
  split; [exact Hnull|].
  unfold cleanup. now rewrite Hnull.
Qed.

Lemma get_line_array_wellformed_witness :
  exists (first : string) (others : list string),
    tokens_of ("setenv FOO bar" +:+ nl) = first :: others
    /\ argv ["setenv"; "FOO"; "bar"] = argv (first :: others)
    /\ List.length (argv ["setenv"; "FOO"; "bar"]) = TOKENS_SIZE
    /\ entry (argv ["setenv"; "FOO"; "bar"]) 0 = Some first
    /\ Forall (fun token => token <> "") (first :: others)
    /\ (forall i, (i < List.length (first :: others))%nat ->
          entry (argv ["setenv"; "FOO"; "bar"]) i = (first :: others) !! i)
    /\ entry (argv ["setenv"; "FOO"; "bar"]) (List.length (first :: others)) = None
    /\ first_null 0 (argv ["setenv"; "FOO"; "bar"]) = Ok (List.length (first :: others))
    /\ cleanup (argv ["setenv"; "FOO"; "bar"]) = Ok tt.
Proof.
  apply (get_line_array_wellformed
           ("setenv FOO bar" +:+ nl +:+ "exit" +:+ nl)
           ("setenv FOO bar" +:+ nl) ("exit" +:+ nl)).
  - reflexivity.
  - vm_compute. lia.
  - rewrite get_line_spec. reflexivity.
Defined.

End LineSource.

(** ** The dispatcher *)

Section Dispatcher.

Implicit Types (sys : os) (w : world) (tokens : token_array).

Lemma set_env_same w : set_env (env w) w = w.
Proof. now destruct w. Qed.

Lemma run_command_setenv sys tokens w :
  entry tokens 0 = Some "setenv" ->
  run_command sys tokens w =
  match entry tokens 1, entry tokens 2 with
  | Some name, Some value =>
      (Ret 1, set_env (snd (setenv name value 1 (env w))) w)
  | _, _ => (Ret 1, print Stdout USAGE_SETENV w)
  end.
Proof. intros H. unfold run_command. now rewrite H. Qed.

Lemma run_command_unsetenv sys tokens w :
  entry tokens 0 = Some "unsetenv" ->
  run_command sys tokens w =
  match entry tokens 1 with
  | Some name => (Ret 1, set_env (snd (unsetenv name (env w))) w)
  | None => (Ret 1, print Stdout USAGE_UNSETENV w)
  end.
Proof. intros H. unfold run_command. now rewrite H. Qed.

Lemma setenv_overwrite name value e :
  valid_name name = true -> setenv name value 1 e = (0, <[name := value]> e).
Proof. intros H. unfold setenv. rewrite H. now destruct (e !! name). Qed.

Lemma setenv_invalid name value e :
  valid_name name = false -> setenv name value 1 e = (-1, e).
Proof. intros H. unfold setenv. now rewrite H. Qed.

(** C3 as stated fails: with three argument tokens [setenv] prints no
    usage message and sets the variable. *)
Lemma setenv_extra_argument_sets :
  let tokens := argv ["setenv"; "A"; "1"; "extra"] in
  let after := snd (run_command parent_no_program tokens world0) in
  get_line ("setenv A 1 extra" +:+ nl) = (Ok (Some tokens), "")
  /\ env world0 !! "A" = None
  /\ env after !! "A" = Some "1"
  /\ output after = []
  /\ fst (run_command parent_no_program tokens world0) = Ret 1.
Proof.
  cbv zeta. split; [rewrite get_line_spec; reflexivity|].
  rewrite run_command_setenv by reflexivity.
  rewrite !entry_argv by (unfold TOKENS_SIZE; lia).
  cbn [lookup list_lookup]. rewrite setenv_overwrite by reflexivity.
  cbn [snd fst set_env env output world0].
  split; [apply lookup_empty|]. split; [apply lookup_insert_eq|]. split; reflexivity.
Qed.

(** C3, amended: with fewer than two argument tokens [setenv] prints its
    usage message, leaves the environment as it is and returns 1; with
    two or more it calls [setenv] on the first two and returns 1, the
    further ones being ignored: for a non-empty name without '=' the
    variable then has the given value, whatever it was before, and for
    another name nothing changes. *)
Theorem setenv_dispatch sys w (args : list string) :
  ((List.length args < 2)%nat ->
     run_command sys (argv ("setenv" :: args)) w
     = (Ret 1, print Stdout USAGE_SETENV w)
     /\ env (print Stdout USAGE_SETENV w) = env w)
  /\ (forall (name value : string) (extra : list string),
        args = name :: value :: extra -> valid_name name = true ->
        run_command sys (argv ("setenv" :: args)) w
        = (Ret 1, set_env (<[name := value]> (env w)) w)
        /\ env (set_env (<[name := value]> (env w)) w) !! name = Some value)
  /\ (forall (name value : string) (extra : list string),
        args = name :: value :: extra -> valid_name name = false ->
        run_command sys (argv ("setenv" :: args)) w = (Ret 1, w)).
Proof.
  assert (H0 : entry (argv ("setenv" :: args)) 0 = Some "setenv").
  { now rewrite entry_argv by (unfold TOKENS_SIZE; lia). }
  rewrite (run_command_setenv sys _ w H0).
  rewrite !entry_argv by (unfold TOKENS_SIZE; lia).
  cbn [lookup list_lookup].
  split; [|split].
  - intros Hlen. split; [|reflexivity].
    destruct args as [|a [|b args]]; [reflexivity | reflexivity | simpl in Hlen; lia].
  - intros name value extra -> Hvalid. cbn [lookup list_lookup].
    rewrite (setenv_overwrite _ _ _ Hvalid). split; [reflexivity|].
    apply lookup_insert_eq.
  - intros name value extra -> Hvalid. cbn [lookup list_lookup].
    rewrite (setenv_invalid _ _ _ Hvalid). cbn [snd]. now rewrite set_env_same.
Qed.

Lemma setenv_dispatch_witness :
  run_command parent_no_program (argv ["setenv"; "X"]) world0
  = (Ret 1, print Stdout USAGE_SETENV world0)
  /\ run_command parent_no_program (argv ["setenv"; "A"; "1"; "extra"]) world0
    = (Ret 1, set_env (<["A" := "1"]> (env world0)) world0)
  /\ run_command parent_no_program (argv ["setenv"; "A=B"; "1"]) world0
    = (Ret 1, world0).
Proof.
  split; [|split].
  - apply (proj1 (setenv_dispatch parent_no_program world0 ["X"])).
    simpl. lia.
  - apply (proj1 (proj2 (setenv_dispatch parent_no_program world0 ["A"; "1"; "extra"]))
             "A" "1" ["extra"]); reflexivity.
  - apply (proj2 (proj2 (setenv_dispatch parent_no_program world0 ["A=B"; "1"]))
             "A=B" "1" []); reflexivity.
Defined.

(** C9: dispatching "unsetenv X" returns 1 and prints nothing; when X is
    not in the environment the state is left as it was; dispatching it
    again gives the same status and the same state as dispatching it
    once. *)
Theorem unsetenv_idempotent sys w (x : string) :
  let tokens := argv ["unsetenv"; x] in
  let once := run_command sys tokens w in
  fst once = Ret 1
  /\ output (snd once) = output w
  /\ (env w !! x = None -> snd once = w)
  /\ (valid_name x = true -> env (snd once) = delete x (env w))
  /\ run_command sys tokens (snd once) = once.
Proof.
  cbv zeta.
  assert (H0 : entry (argv ["unsetenv"; x]) 0 = Some "unsetenv") by reflexivity.
  assert (H1 : entry (argv ["unsetenv"; x]) 1 = Some x) by reflexivity.
  rewrite !(run_command_unsetenv sys _ _ H0), H1. cbn [fst snd].
  split; [reflexivity|]. split; [reflexivity|].
  unfold unsetenv. destruct (valid_name x) eqn:Hvalid; cbn [snd set_env env].
  - split; [|split; [reflexivity|]].
    + intros Habsent. rewrite (delete_id _ _ Habsent). apply set_env_same.
    + now rewrite delete_delete_eq.
  - split; [intros _; apply set_env_same|].
    split; [discriminate|]. now rewrite !set_env_same.
Qed.

Lemma unsetenv_idempotent_witness :
  snd (run_command parent_no_program (argv ["unsetenv"; "X"]) world0) = world0.
Proof.
  apply (proj1 (proj2 (proj2 (unsetenv_idempotent parent_no_program world0 "X")))).
  apply lookup_empty.
Defined.

Lemma run_command_external sys tokens w command :
  entry tokens 0 = Some command -> check_command command = EXTERNAL ->
  run_command sys tokens w =
  let cid := fork_ret sys (forks w) in
  match (if cid =? 0 then child_exec sys command tokens (count_fork w)
         else (Ret 1, count_fork w)) with
  | (Ret ret_val, w') =>
      if cid <? 0 then (Ret (-1), print Stderr ERROR_FORK w') else (Ret ret_val, w')
  | stopped => stopped
  end.
Proof.
  intros H0 Hkind. unfold run_command. rewrite H0, Hkind. cbv zeta.
  destruct (fork_ret sys (forks w) =? 0);
    [destruct (child_exec _ _ _ _) as [[r| |u] w']|];
    try reflexivity; now destruct (fork_ret sys (forks w) <? 0).
Qed.

(** C1 as stated fails: in the shell that dispatched a program that is
    not on the search path, the parent of the fork, [run_command]
    returns 1. *)
Lemma missing_program_parent_continues :
  check_command "nosuchprogram" = EXTERNAL
  /\ execvp_ok parent_no_program (count_fork world0) "nosuchprogram" = false
  /\ run_command parent_no_program (argv ["nosuchprogram"]) world0
    = (Ret 1, count_fork world0)
  /\ ~ (exists ret_val : Z,
         fst (run_command parent_no_program (argv ["nosuchprogram"]) world0)
         = Ret ret_val /\ ret_val < 0).
Proof.
  assert (Hrun : run_command parent_no_program (argv ["nosuchprogram"]) world0
                 = (Ret 1, count_fork world0)).
  { now rewrite (run_command_external _ _ _ "nosuchprogram") by reflexivity. }
  split; [reflexivity|]. split; [reflexivity|]. split; [exact Hrun|].
  rewrite Hrun. intros (ret_val & [= <-] & Hneg). lia.
Qed.

(** C1, amended: on an External dispatch [run_command] returns -1 to its
    caller when [fork] fails, and it returns -1 in the new child when
    [execvp] cannot start the program; when [execvp] can, the child does
    not return.  In the parent of a successful fork it returns 1, whether
    or not the program could be started. *)
Theorem external_dispatch_status sys tokens w (command : string) :
  entry tokens 0 = Some command -> check_command command = EXTERNAL ->
  (fork_ret sys (forks w) < 0 ->
     run_command sys tokens w = (Ret (-1), print Stderr ERROR_FORK (count_fork w)))
  /\ (fork_ret sys (forks w) = 0 ->
      (exists n : nat, first_null 0 tokens = Ok n) ->
      execvp_ok sys (count_fork w) command = false ->
      run_command sys tokens w = (Ret (-1), print Stderr ERROR_EXEC (count_fork w)))
  /\ (fork_ret sys (forks w) = 0 ->
      (exists n : nat, first_null 0 tokens = Ok n) ->
      execvp_ok sys (count_fork w) command = true ->
      run_command sys tokens w = (Exec, count_fork w))
  /\ (0 < fork_ret sys (forks w) ->
      run_command sys tokens w = (Ret 1, count_fork w)).
Proof.
  intros H0 Hkind. rewrite (run_command_external sys tokens w command H0 Hkind).
  cbv zeta. split; [|split; [|split]].
  - intros Hcid.
    destruct (Z.eqb_spec (fork_ret sys (forks w)) 0) as [E|_]; [lia|].
    now destruct (Z.ltb_spec (fork_ret sys (forks w)) 0); [|lia].
  - intros -> [n Hn] Hexec. cbn. unfold child_exec. now rewrite Hn, Hexec.
  - intros -> [n Hn] Hexec. cbn. unfold child_exec. now rewrite Hn, Hexec.
  - intros Hcid.
    destruct (Z.eqb_spec (fork_ret sys (forks w)) 0) as [E|_]; [lia|].
    now destruct (Z.ltb_spec (fork_ret sys (forks w)) 0); [lia|].
Qed.

Lemma external_dispatch_status_witness :
  run_command no_fork (argv ["ls"]) world0
  = (Ret (-1), print Stderr ERROR_FORK (count_fork world0))
  /\ run_command child_no_program (argv ["nosuchprogram"]) world0
    = (Ret (-1), print Stderr ERROR_EXEC (count_fork world0))
  /\ run_command parent_no_program (argv ["nosuchprogram"]) world0
    = (Ret 1, count_fork world0).
Proof.
  split; [|split].
  - apply (proj1 (external_dispatch_status no_fork (argv ["ls"]) world0 "ls"
                    eq_refl eq_refl)).
    reflexivity.
  - apply (proj1 (proj2 (external_dispatch_status child_no_program
                           (argv ["nosuchprogram"]) world0 "nosuchprogram"
                           eq_refl eq_refl))).
    + reflexivity.
    + exists 1%nat. reflexivity.
    + reflexivity.
  - apply (proj2 (proj2 (proj2 (external_dispatch_status parent_no_program
                                  (argv ["nosuchprogram"]) world0 "nosuchprogram"
                                  eq_refl eq_refl)))).
    reflexivity.
Defined.

End Dispatcher.

(** ** The startup pass *)

Section Startup.

Implicit Types (sys : os) (w : world).

Lemma initalize_loop_eq sys kapishrc w :
  initalize_loop sys kapishrc w =
  match get_line kapishrc with
  | (Undef u, _) => (Fail u, w)
  | (Ok None, _) => (Ret tt, w)
  | (Ok (Some tokens), kapishrc') =>
      match run_command sys tokens w with
      | (Ret _, w') =>
          match cleanup tokens with
          | Ok _ => initalize_loop sys kapishrc' w'
          | Undef u => (Fail u, w')
          end
      | (Exec, w') => (Exec, w')
      | (Fail u, w') => (Fail u, w')
      end
  end.
Proof.
  rewrite initalize_loop_equation_1. unfold inspect.
  assert (Hgen : forall r (H : get_line kapishrc = r),
    initalize_loop_unfold_clause_1 sys kapishrc (exist _ r H) w =
    match r with
    | (Undef u, _) => (Fail u, w)
    | (Ok None, _) => (Ret tt, w)
    | (Ok (Some tokens), kapishrc') =>
        match run_command sys tokens w with
        | (Ret _, w') =>
            match cleanup tokens with
            | Ok _ => initalize_loop sys kapishrc' w'
            | Undef u => (Fail u, w')
            end
        | (Exec, w') => (Exec, w')
        | (Fail u, w') => (Fail u, w')
        end
    end).
  { intros [[[tokens|]|u] rest] H; simp initalize_loop; reflexivity. }
  apply Hgen.
Qed.

Lemma get_line_one_line body rest :
  all_chars (fun c => negb (Ascii.eqb c LF)) body = true ->
  (String.length body < LINE_BUFFER_SIZE - 1)%nat ->
  get_line (body +:+ nl +:+ rest) =
  if (List.length (tokens_of (body +:+ nl)) <=? TOKENS_SIZE)%nat
  then match tokens_of (body +:+ nl) with
       | [] => (Ok None, rest)
       | _ :: _ => (Ok (Some (argv (tokens_of (body +:+ nl)))), rest)
       end
  else (Undef (WriteOutOfBounds TOKENS_SIZE), rest).
Proof.
  intros Hbody Hlen. rewrite get_line_spec. unfold nl at 1.
  change (String LF "" +:+ rest) with (String LF rest).
  now rewrite (fgets_newline body rest Hbody Hlen).
Qed.

(** C6 as stated fails: the line after an "exit" line of the resource
    file is dispatched. *)
Lemma startup_pass_runs_past_exit :
  let rc := "exit" +:+ nl +:+ "setenv A 1" +:+ nl in
  let after := snd (initalize parent_no_program (Some rc) world0) in
  env world0 !! "A" = None
  /\ env after !! "A" = Some "1"
  /\ after <> world0.
Proof.
  cbv zeta.
  assert (H : initalize parent_no_program
                (Some ("exit" +:+ nl +:+ "setenv A 1" +:+ nl)) world0
              = (Ret 0, set_env (<["A" := "1"]> ∅) world0)).
  { vm_compute. reflexivity. }
  rewrite H. cbn [snd].
  assert (Hset : env (set_env (<["A" := "1"]> ∅) world0) !! "A" = Some "1")
    by apply lookup_insert_eq.
  split; [apply lookup_empty|]. split; [exact Hset|].
  intros E. rewrite E in Hset. cbn [env world0] in Hset.
  rewrite lookup_empty in Hset. discriminate.
Qed.

Lemma get_line_exit rest :
  get_line ("exit" +:+ nl +:+ rest) = (Ok (Some (argv ["exit"])), rest).
Proof.
  rewrite (get_line_one_line "exit") by (vm_compute; lia || reflexivity).
  reflexivity.
Qed.

(** C6, amended: the startup pass discards the status [run_command]
    returns.  After a line whose dispatch returns, be it with a negative
    status, with 0 or with 1, the pass goes on with the rest of the file
    in the state the dispatch left; an "exit" line therefore changes
    nothing and the lines after it are dispatched. *)
Theorem startup_pass_ignores_status sys w :
  (forall (file rest : string) (tokens : token_array) (ret_val : Z) (w' : world),
      get_line file = (Ok (Some tokens), rest) ->
      run_command sys tokens w = (Ret ret_val, w') ->
      cleanup tokens = Ok tt ->
      initalize_loop sys file w = initalize_loop sys rest w')
  /\ (forall rest : string,
        initalize sys (Some ("exit" +:+ nl +:+ rest)) w = initalize sys (Some rest) w).
Proof.
  split.
  - intros file rest tokens ret_val w' Hline Hrun Hclean.
    now rewrite initalize_loop_eq, Hline, Hrun, Hclean.
  - intros rest. unfold initalize.
    now rewrite initalize_loop_eq, get_line_exit.
Qed.

Lemma startup_pass_ignores_status_witness :
  initalize_loop no_fork ("ls" +:+ nl +:+ "setenv A 1" +:+ nl) world0
  = initalize_loop no_fork ("setenv A 1" +:+ nl)
      (print Stderr ERROR_FORK (count_fork world0)).
Proof.
  apply (proj1 (startup_pass_ignores_status no_fork world0)
           ("ls" +:+ nl +:+ "setenv A 1" +:+ nl) ("setenv A 1" +:+ nl)
           (argv ["ls"]) (-1)).
  - rewrite get_line_spec. reflexivity.
  - reflexivity.
  - reflexivity.
Defined.

End Startup.

(** ** The interactive loop *)

Section Loop.

Implicit Types (sys : os) (w : world) (st : loop_state).

(** At end of input a round of the loop only prints the prompt. *)
Lemma loop_body_eof sys st :
  stdin st = "" ->
  loop_body sys st
  = Ret (mkLoop (program_status st) "" (print Stdout "? " (shell st))).
Proof. intros H. unfold loop_body. now rewrite H. Qed.

(** Once the input is exhausted while the status is positive, no number
    of rounds leaves the loop. *)
Lemma loop_from_eof fuel : forall sys st,
  stdin st = "" -> program_status st > 0 -> loop_from fuel sys st = None.
Proof.
  induction fuel as [|fuel IH]; intros sys st Heof Hpos; simpl.
  - now destruct (Z.gtb_spec (program_status st) 0); [|lia].
  - destruct (Z.gtb_spec (program_status st) 0); [|lia].
    rewrite (loop_body_eof sys st Heof). now apply IH.
Qed.

Lemma initalize_status sys kapishrc w ret_val w' :
  initalize sys kapishrc w = (Ret ret_val, w') -> ret_val = 0.
Proof.
  unfold initalize. destruct kapishrc as [file|]; [|congruence].
  destruct (initalize_loop sys file w) as [[r| |u] w1]; congruence.
Qed.

(** C4: with the interactive stream at end of input the loop asks for a
    line again and again: [loop] does not return within any number of
    rounds, and [main] never exits with a status, 0 or other. *)
Theorem loop_spins_at_end_of_input
    (fuel : nat) sys (kapishrc : option string) w :
  loop fuel sys "" w = None
  /\ (forall code : Z, main fuel sys kapishrc "" w <> Some (Ret code))
  /\ main fuel sys None "" w = None.
Proof.
  assert (Hloop : forall w0, loop fuel sys "" w0 = None).
  { intros w0. apply loop_from_eof; [reflexivity | simpl; lia]. }
  split; [apply Hloop|]. split.
  - intros code. unfold main.
    destruct (initalize sys kapishrc w) as [[ret_val| |u] w1] eqn:Hinit;
      [|discriminate|discriminate].
    apply initalize_status in Hinit. subst ret_val.
    cbn [Z.eqb negb]. now rewrite Hloop.
  - unfold main, initalize. cbn [Z.eqb negb]. now rewrite Hloop.
Qed.

(** The same holds when the input ends after commands that are not
    "exit": here one [setenv] line. *)
Lemma loop_spins_after_last_line fuel sys w :
  loop fuel sys ("setenv A 1" +:+ nl) w = None.
Proof.
  unfold loop. destruct fuel as [|fuel]; [reflexivity|].
  cbn [loop_from program_status Z.gtb Z.compare].
  unfold loop_body. cbn [stdin shell].
  replace (get_line ("setenv A 1" +:+ nl))
    with (Ok (Some (argv ["setenv"; "A"; "1"])), "")
    by (rewrite get_line_spec; reflexivity).
  rewrite (run_command_setenv sys) by reflexivity.
  replace (cleanup (argv ["setenv"; "A"; "1"])) with (Ok tt) by reflexivity.
  cbn. apply loop_from_eof; [reflexivity | simpl; lia].
Qed.

End Loop.

(** ** More on the tokenizer *)

Section TokenizerAlgebra.

Lemma nul_free_cons c s :
  nul_free (String c s) <-> Ascii.eqb c NUL = false /\ nul_free s.
Proof.
  unfold nul_free. cbn [cstr]. destruct (Ascii.eqb c NUL); split.
  - discriminate.
  - intros [? _]. discriminate.
  - intros [= H]. now split.
  - intros [_ ->]. reflexivity.
Qed.

Lemma append_cons c (s1 s2 : string) :
  String c s1 +:+ s2 = String c (s1 +:+ s2).
Proof. reflexivity. Qed.

Lemma nul_free_app s1 s2 :
  nul_free (s1 +:+ s2) <-> nul_free s1 /\ nul_free s2.
Proof.
  induction s1 as [|c s1 IH].
  - change ("" +:+ s2) with s2. split; [now split | tauto].
  - rewrite append_cons, !nul_free_cons, IH. tauto.
Qed.

Lemma token_chars_nul_free token :
  all_chars token_char token = true -> nul_free token.
Proof.
  induction token as [|c token IH]; [reflexivity|].
  cbn [all_chars]. intros [[Hc _]%token_char_spec Htoken]%andb_true_iff.
  apply nul_free_cons. split; [exact Hc | exact (IH Htoken)].
Qed.

Lemma delims_nul_free run :
  all_chars (is_delim DELIM) run = true -> nul_free run.
Proof.
  induction run as [|c run IH]; [reflexivity|].
  cbn [all_chars]. intros [Hc Hrun]%andb_true_iff.
  apply nul_free_cons. split; [exact (delim_not_nul c Hc) | exact (IH Hrun)].
Qed.

Lemma all_chars_app p s1 s2 :
  all_chars p (s1 +:+ s2) = all_chars p s1 && all_chars p s2.
Proof.
  induction s1 as [|c s1 IH]; [reflexivity|].
  rewrite append_cons. cbn [all_chars]. now rewrite IH, andb_assoc.
Qed.

Lemma append_assoc (s1 s2 s3 : string) :
  (s1 +:+ s2) +:+ s3 = s1 +:+ (s2 +:+ s3).
Proof.
  induction s1 as [|c s1 IH]; [reflexivity|]. now rewrite !append_cons, IH.
Qed.

Lemma append_empty_r (s : string) : s +:+ "" = s.
Proof. induction s as [|c s IH]; [reflexivity|]. now rewrite append_cons, IH. Qed.

Lemma length_append (s1 s2 : string) :
  String.length (s1 +:+ s2) = (String.length s1 + String.length s2)%nat.
Proof.
  induction s1 as [|c s1 IH]; [reflexivity|].
  rewrite append_cons. cbn [String.length]. now rewrite IH.
Qed.

(** A NUL-free string is a run of delimiters followed by what
    [skip_delims] leaves. *)
Lemma skip_delims_split s :
  nul_free s ->
  exists run, s = run +:+ skip_delims DELIM s
              /\ all_chars (is_delim DELIM) run = true.
Proof.
  induction s as [|c s IH]; intros Hs.
  - exists "". split; reflexivity.
  - apply nul_free_cons in Hs as [Hc Hs]. cbn [skip_delims]. rewrite Hc.
    destruct (is_delim DELIM c) eqn:Hd.
    + destruct (IH Hs) as (run & Heq & Hrun). exists (String c run).
      rewrite append_cons. cbn [all_chars]. rewrite Hd, Hrun. split; [|reflexivity].
      now rewrite <- Heq.
    + exists "". split; reflexivity.
Qed.

(** A NUL-free string is the token [scan_token] takes, followed either
    by nothing or by a delimiter and the saved rest. *)
Lemma scan_token_split s :
  nul_free s ->
  (s = fst (scan_token DELIM s) /\ snd (scan_token DELIM s) = "")
  \/ (exists d, is_delim DELIM d = true
                /\ s = fst (scan_token DELIM s) +:+ String d (snd (scan_token DELIM s))).
Proof.
  induction s as [|c s IH]; intros Hs.
  - left. split; reflexivity.
  - apply nul_free_cons in Hs as [Hc Hs]. cbn [scan_token]. rewrite Hc.
    destruct (is_delim DELIM c) eqn:Hd.
    + right. exists c. split; [exact Hd | reflexivity].
    + destruct (scan_token DELIM s) as [token save] eqn:Hscan. cbn [fst snd] in *.
      destruct (IH Hs) as [[Heq Hsave]|(d & Hdd & Heq)].
      * left. split; [now rewrite <- Heq | exact Hsave].
      * right. exists d. split; [exact Hdd|]. rewrite append_cons. now rewrite <- Heq.
Qed.

(** The three shapes of a NUL-free string seen by [strtok]. *)
Lemma strtok_split s :
  nul_free s ->
  (strtok s DELIM = None /\ all_chars (is_delim DELIM) s = true)
  \/ (exists run token,
        strtok s DELIM = Some (token, "") /\ s = run +:+ token
        /\ all_chars (is_delim DELIM) run = true
        /\ token <> "" /\ all_chars token_char token = true)
  \/ (exists run token d rest,
        strtok s DELIM = Some (token, rest)
        /\ s = run +:+ token +:+ String d rest
        /\ all_chars (is_delim DELIM) run = true
        /\ token <> "" /\ all_chars token_char token = true
        /\ is_delim DELIM d = true /\ nul_free rest).
Proof.
  intros Hs. destruct (skip_delims_split s Hs) as (run & Heq & Hrun).
  destruct (strtok s DELIM) as [[token rest]|] eqn:Htok.
  - right. pose proof (strtok_some _ _ _ Htok) as (Hne & Hchars & _).
    pose proof Htok as Hunf. unfold strtok in Hunf.
    destruct (skip_delims DELIM s) as [|c s'] eqn:Hskip; [discriminate|].
    assert (Hscan : scan_token DELIM (String c s') = (token, rest)) by congruence.
    assert (Hfree : nul_free (String c s')).
    { rewrite Heq in Hs. now apply nul_free_app in Hs. }
    destruct (scan_token_split _ Hfree) as [[Hall Hsave]|(d & Hd & Hall)];
      rewrite Hscan in *; cbn [fst snd] in *.
    + left. exists run, token. subst rest.
      split; [reflexivity|]. split; [now rewrite <- Hall|].
      split; [exact Hrun|]. split; [exact Hne | exact Hchars].
    + right. exists run, token, d, rest.
      split; [reflexivity|]. split; [now rewrite <- Hall|].
      split; [exact Hrun|]. split; [exact Hne|]. split; [exact Hchars|].
      split; [exact Hd|].
      rewrite Hall in Hfree. apply nul_free_app in Hfree as [_ Hfree].
      now apply nul_free_cons in Hfree.
  - left. split; [reflexivity|]. unfold strtok in Htok.
    destruct (skip_delims DELIM s) as [|c s'] eqn:Hskip; [|discriminate].
    rewrite Heq. now rewrite append_empty_r.
Qed.

Lemma tokens_of_skip_run run s :
  all_chars (is_delim DELIM) run = true ->
  tokens_of (run +:+ s) = tokens_of s.
Proof.
  intros Hrun. rewrite (tokens_of_eq (run +:+ s)), (tokens_of_eq s).
  unfold strtok. now rewrite (skip_delims_run run s Hrun).
Qed.

(** Splitting is compatible with cutting the line at a delimiter. *)
Lemma tokens_of_app_delim s1 : forall d s2,
  nul_free s1 -> is_delim DELIM d = true ->
  tokens_of (s1 +:+ String d s2) = (tokens_of s1 ++ tokens_of s2)%list.
Proof.
  remember (String.length s1) as n eqn:Hn. revert s1 Hn.
  induction n as [n IH] using lt_wf_ind. intros s1 -> d s2 Hfree Hd.
  destruct (strtok_split s1 Hfree)
    as [[Hnone Hall]|[(run & token & Htok & -> & Hrun & Hne & Hchars)
                     |(run & token & d' & rest & Htok & -> & Hrun & Hne & Hchars & Hd' & Hrest)]].
  - rewrite (tokens_of_blank s1 Hall). cbn [app].
    rewrite (tokens_of_skip_run s1 _ Hall).
    apply (tokens_of_skip_run (String d "") s2). cbn [all_chars]. now rewrite Hd.
  - rewrite (tokens_of_last run token Hrun Hne Hchars).
    rewrite append_assoc.
    now rewrite (tokens_of_word run token d s2 Hrun Hne Hchars Hd).
  - rewrite (tokens_of_word run token d' rest Hrun Hne Hchars Hd').
    rewrite append_assoc, append_assoc, append_cons.
    rewrite (tokens_of_word run token d' _ Hrun Hne Hchars Hd').
    cbn [app]. f_equal.
    apply (IH (String.length rest)); [|reflexivity|exact Hrest|exact Hd].
    rewrite !length_append. cbn [String.length]. lia.
Qed.

Lemma tokenize_fits line :
  (List.length (tokens_of line) <= TOKENS_SIZE)%nat ->
  tokenize line = Ok (argv (tokens_of line)).
Proof.
  intros Hlen. rewrite tokenize_spec.
  now destruct (Nat.leb_spec (List.length (tokens_of line)) TOKENS_SIZE); [|lia].
Qed.

(** Lines with the same tokens give the same result. *)
Lemma tokenize_same_tokens line1 line2 :
  tokens_of line1 = tokens_of line2 -> tokenize line1 = tokenize line2.
Proof. intros H. now rewrite !tokenize_spec, H. Qed.

(** X1: cutting a line at a delimiter cuts its token sequence: the tokens
    of the line are those of the part before the delimiter followed by
    those of the part after it, and [tokenize] stores them in that order
    when they fit. *)
Theorem tokenize_cut_at_delimiter (s1 : string) (d : ascii) (s2 : string) :
  nul_free s1 -> is_delim DELIM d = true ->
  tokens_of (s1 +:+ String d s2) = (tokens_of s1 ++ tokens_of s2)%list
  /\ ((List.length (tokens_of s1) + List.length (tokens_of s2) <= TOKENS_SIZE)%nat ->
      tokenize (s1 +:+ String d s2)
      = Ok (argv (tokens_of s1 ++ tokens_of s2))).
Proof.
  intros Hfree Hd.
  pose proof (tokens_of_app_delim s1 d s2 Hfree Hd) as Heq.
  split; [exact Heq|]. intros Hlen.
  rewrite <- Heq. apply tokenize_fits. rewrite Heq, length_app. exact Hlen.
Qed.

Lemma tokenize_cut_at_delimiter_witness :
  tokens_of ("cd" +:+ String SP ("/tmp" +:+ nl))
  = (tokens_of "cd" ++ tokens_of ("/tmp" +:+ nl))%list
  /\ tokenize ("cd" +:+ String SP ("/tmp" +:+ nl))
    = Ok (argv (tokens_of "cd" ++ tokens_of ("/tmp" +:+ nl))).
Proof.
  destruct (tokenize_cut_at_delimiter "cd" SP ("/tmp" +:+ nl)) as [H1 H2];
    [reflexivity | reflexivity |].
  split; [exact H1|]. apply H2. vm_compute. lia.
Defined.

(** X2: delimiters around a line do not change the result of [tokenize]:
    leading and trailing spaces and newlines are ignored. *)
Theorem tokenize_ignores_surrounding_delimiters (run1 line run2 : string) :
  all_chars (is_delim DELIM) run1 = true ->
  all_chars (is_delim DELIM) run2 = true ->
  nul_free line ->
  tokens_of (run1 +:+ line +:+ run2) = tokens_of line
  /\ tokenize (run1 +:+ line +:+ run2) = tokenize line.
Proof.
  intros Hrun1 Hrun2 Hfree.
  assert (Heq : tokens_of (run1 +:+ line +:+ run2) = tokens_of line).
  { rewrite (tokens_of_skip_run run1 _ Hrun1).
    destruct run2 as [|d run2]; [now rewrite append_empty_r|].
    cbn [all_chars] in Hrun2. apply andb_true_iff in Hrun2 as [Hd Hrun2].
    rewrite (tokens_of_app_delim line d run2 Hfree Hd).
    now rewrite (tokens_of_blank run2 Hrun2), app_nil_r. }
  split; [exact Heq | exact (tokenize_same_tokens _ _ Heq)].
Qed.

Lemma tokenize_ignores_surrounding_delimiters_witness :
  tokens_of ("  " +:+ "setenv FOO bar" +:+ (" " +:+ nl)) = tokens_of "setenv FOO bar"
  /\ tokenize ("  " +:+ "setenv FOO bar" +:+ (" " +:+ nl)) = tokenize "setenv FOO bar".
Proof.
  apply (tokenize_ignores_surrounding_delimiters "  " "setenv FOO bar" (" " +:+ nl));
    reflexivity.
Defined.

(** *** Bytes after a NUL *)

Lemma skip_delims_cstr s :
  skip_delims DELIM (cstr s) = cstr (skip_delims DELIM s).
Proof.
  induction s as [|c s IH]; [reflexivity|].
  cbn [cstr skip_delims]. destruct (Ascii.eqb c NUL) eqn:Hc; [reflexivity|].
  cbn [skip_delims]. rewrite Hc.
  destruct (is_delim DELIM c); [exact IH|]. cbn [cstr]. now rewrite Hc.
Qed.

Lemma scan_token_cstr s :
  scan_token DELIM (cstr s)
  = (fst (scan_token DELIM s), cstr (snd (scan_token DELIM s))).
Proof.
  induction s as [|c s IH]; [reflexivity|].
  cbn [cstr scan_token]. destruct (Ascii.eqb c NUL) eqn:Hc; [reflexivity|].
  cbn [scan_token]. rewrite Hc.
  destruct (is_delim DELIM c); [reflexivity|].
  rewrite IH. now destruct (scan_token DELIM s).
Qed.

Lemma strtok_cstr s :
  strtok (cstr s) DELIM =
  match strtok s DELIM with
  | None => None
  | Some (token, save) => Some (token, cstr save)
  end.
Proof.
  unfold strtok. rewrite skip_delims_cstr.
  destruct (skip_delims DELIM s) as [|c s'] eqn:Hskip; [reflexivity|].
  pose proof (skip_delims_head _ _ _ Hskip) as [Hc _]%token_char_spec.
  assert (Hcs : cstr (String c s') = String c (cstr s'))
    by (cbn [cstr]; now rewrite Hc).
  rewrite Hcs, <- Hcs, scan_token_cstr.
  now destruct (scan_token DELIM (String c s')).
Qed.

Lemma cstr_app_nul s rest : cstr (cstr s +:+ String NUL rest) = cstr s.
Proof.
  induction s as [|c s IH]; [reflexivity|].
  cbn [cstr]. destruct (Ascii.eqb c NUL) eqn:Hc; [reflexivity|].
  rewrite append_cons. cbn [cstr]. now rewrite Hc, IH.
Qed.

Lemma tokens_of_cstr s : tokens_of (cstr s) = tokens_of s.
Proof.
  remember (String.length s) as n eqn:Hn. revert s Hn.
  induction n as [n IH] using lt_wf_ind. intros s ->.
  rewrite (tokens_of_eq (cstr s)), (tokens_of_eq s), strtok_cstr.
  destruct (strtok s DELIM) as [[token save]|] eqn:Htok; [|reflexivity].
  apply strtok_some in Htok as (_ & _ & Hlt).
  f_equal. exact (IH _ Hlt save eq_refl).
Qed.

(** X3: [tokenize] reads the line as a C string: the bytes from the first
    NUL on are ignored. *)
Theorem tokenize_stops_at_nul (command rest : string) :
  tokenize command = tokenize (cstr command)
  /\ tokenize (cstr command +:+ String NUL rest) = tokenize (cstr command).
Proof.
  split.
  - apply tokenize_same_tokens. symmetry. apply tokens_of_cstr.
  - apply tokenize_same_tokens.
    rewrite <- (tokens_of_cstr (cstr command +:+ String NUL rest)).
    now rewrite cstr_app_nul, tokens_of_cstr.
Qed.

(** *** Joining and splitting again *)

Lemma tokens_of_unwords toks :
  Forall (fun token => token <> "" /\ all_chars token_char token = true) toks ->
  tokens_of (unwords toks) = toks.
Proof.
  induction 1 as [|token toks [Hne Hchars] Htoks IH]; [reflexivity|].
  destruct toks as [|token' toks].
  - exact (tokens_of_last "" token eq_refl Hne Hchars).
  - change (unwords (token :: token' :: toks))
      with ("" +:+ token +:+ String SP (unwords (token' :: toks))).
    rewrite (tokens_of_word "" token SP _ eq_refl Hne Hchars eq_refl).
    now rewrite IH.
Qed.

(** X4: the tokens of a line, joined by single spaces and tokenized
    again, are the same tokens: [tokenize] gives the same result on the
    joined line as on the line itself. *)
Theorem tokenize_unwords_round_trip (line : string) :
  tokens_of (unwords (tokens_of line)) = tokens_of line
  /\ tokenize (unwords (tokens_of line)) = tokenize line.
Proof.
  assert (Heq : tokens_of (unwords (tokens_of line)) = tokens_of line)
    by exact (tokens_of_unwords _ (tokens_of_clean line)).
  split; [exact Heq | exact (tokenize_same_tokens _ _ Heq)].
Qed.

(** *** How many tokens a line can hold *)

Lemma scan_token_consumes s :
  snd (scan_token DELIM s) = ""
  \/ (String.length (fst (scan_token DELIM s)) + 1
      + String.length (snd (scan_token DELIM s)) <= String.length s)%nat.
Proof.
  induction s as [|c s IH]; [now left|].
  cbn [scan_token]. destruct (Ascii.eqb c NUL); [now left|].
  destruct (is_delim DELIM c); [right; cbn; lia|].
  destruct (scan_token DELIM s) as [token save]. cbn [fst snd String.length] in *.
  destruct IH as [->|IH]; [now left | right; lia].
Qed.

Lemma strtok_consumes s token save :
  strtok s DELIM = Some (token, save) ->
  save = "" \/ (String.length save + 2 <= String.length s)%nat.
Proof.
  intros Htok. pose proof (strtok_some _ _ _ Htok) as (Hne & _ & _).
  unfold strtok in Htok. pose proof (skip_delims_length s) as Hskip.
  destruct (skip_delims DELIM s) as [|c s']; [discriminate|].
  assert (Hscan : scan_token DELIM (String c s') = (token, save)) by congruence.
  destruct (scan_token_consumes (String c s')) as [H|H];
    rewrite Hscan in H; cbn [fst snd] in H; [now left | right].
  destruct token; [congruence|]. cbn [String.length] in *. lia.
Qed.

Lemma tokens_of_count s :
  (2 * List.length (tokens_of s) <= String.length s + 1)%nat.
Proof.
  remember (String.length s) as n eqn:Hn. revert s Hn.
  induction n as [n IH] using lt_wf_ind. intros s ->.
  rewrite tokens_of_eq.
  destruct (strtok s DELIM) as [[token save]|] eqn:Htok; [|cbn; lia].
  pose proof (strtok_some _ _ _ Htok) as (_ & _ & Hlt).
  destruct (strtok_consumes _ _ _ Htok) as [->|Hlen].
  - cbn. lia.
  - specialize (IH _ Hlt save eq_refl). cbn [List.length]. lia.
Qed.

(** X5: a line of [n] tokens has at least [2n - 1] bytes.  Hence
    [tokenize] stays inside its array on every line of at most 128
    bytes, and the lines [get_line] reads, of at most 1023 bytes, have no
    more than 512 tokens. *)
Theorem tokenize_token_count (line : string) :
  (2 * List.length (tokens_of line) <= String.length line + 1)%nat
  /\ ((String.length line <= 128)%nat -> tokenize line = Ok (argv (tokens_of line)))
  /\ ((String.length line <= 1023)%nat -> (List.length (tokens_of line) <= 512)%nat).
Proof.
  pose proof (tokens_of_count line) as Hcount.
  split; [exact Hcount|]. split.
  - intros Hlen. apply tokenize_fits. unfold TOKENS_SIZE. lia.
  - intros Hlen. lia.
Qed.

Lemma tokenize_token_count_witness :
  tokenize (many 64 "a ") = Ok (argv (tokens_of (many 64 "a ")))
  /\ (List.length (tokens_of (many 511 "a " +:+ "a")) <= 512)%nat.
Proof.
  split.
  - apply (proj1 (proj2 (tokenize_token_count (many 64 "a ")))).
    vm_compute. lia.
  - apply (proj2 (proj2 (tokenize_token_count (many 511 "a " +:+ "a")))).
    vm_compute. lia.
Defined.

End TokenizerAlgebra.

(** ** More on the line source *)

Section LineSourceMore.

Lemma read_line_spec n : forall input,
  input = fst (read_line n input) +:+ snd (read_line n input)
  /\ (String.length (fst (read_line n input)) <= n)%nat
  /\ (forall i, String.get i (fst (read_line n input)) = Some LF ->
        S i = String.length (fst (read_line n input)))
  /\ read_line n (fst (read_line n input)) = (fst (read_line n input), "")
  /\ ((1 <= n)%nat -> input <> "" -> fst (read_line n input) <> "").
Proof.
  induction n as [|n IH]; intros input.
  - destruct input; cbn; (split; [reflexivity|]); (split; [lia|]);
      (split; [discriminate|]); (split; [reflexivity|]); lia.
  - destruct input as [|c input].
    + cbn. split; [reflexivity|]. split; [lia|]. split; [discriminate|].
      split; [reflexivity|]. congruence.
    + cbn [read_line]. destruct (Ascii.eqb c LF) eqn:Hc.
      * cbn [fst snd]. split; [reflexivity|]. split; [cbn; lia|].
        split; [|split; [cbn [read_line]; now rewrite Hc | discriminate]].
        intros [|i]; cbn; [reflexivity | discriminate].
      * destruct (IH input) as (Heq & Hlen & Hlf & Hidem & _).
        destruct (read_line n input) as [line rest]. cbn [fst snd] in *.
        split; [now rewrite append_cons, <- Heq|].
        split; [cbn; lia|]. split; [|split; [|discriminate]].
        -- intros [|i]; cbn [String.get String.length].
           ++ intros [= ->]. now rewrite Ascii.eqb_refl in Hc.
           ++ intros Hi. f_equal. exact (Hlf i Hi).
        -- cbn [read_line]. now rewrite Hc, Hidem.
Qed.

(** X6: [get_line] consumes a prefix of the stream of at most 1023
    bytes, empty only at end of stream, in which a newline can only be
    the last byte; what it leaves is the rest of the stream, and what it
    returns depends on the consumed prefix alone. *)
Theorem get_line_consumes_one_line (input : string) :
  exists line : string,
    input = line +:+ snd (get_line input)
    /\ (String.length line <= LINE_BUFFER_SIZE - 1)%nat
    /\ (line = "" <-> input = "")
    /\ (forall i, String.get i line = Some LF -> S i = String.length line)
    /\ get_line line = (fst (get_line input), "").
Proof.
  destruct input as [|c input].
  - exists "". split; [reflexivity|]. split; [cbn; lia|].
    split; [tauto|]. split; [intros [|i]; discriminate | reflexivity].
  - pose proof (read_line_spec (LINE_BUFFER_SIZE - 1) (String c input))
      as (Heq & Hlen & Hlf & Hidem & Hne).
    specialize (Hne ltac:(unfold LINE_BUFFER_SIZE; lia) ltac:(discriminate)).
    exists (fst (read_line (LINE_BUFFER_SIZE - 1) (String c input))).
    unfold get_line at 1 3. unfold fgets.
    destruct (read_line (LINE_BUFFER_SIZE - 1) (String c input)) as [line rest] eqn:Hread.
    cbn [fst snd] in *.
    assert (Hrest : snd (match tokenize line with
                         | Ok tokens =>
                             match entry tokens 0 with
                             | Some _ => (Ok (Some tokens), rest)
                             | None => (Ok None, rest)
                             end
                         | Undef u => (Undef u, rest)
                         end) = rest).
    { destruct (tokenize line) as [tokens|u]; [|reflexivity].
      now destruct (entry tokens 0). }
    rewrite Hrest. split; [exact Heq|]. split; [exact Hlen|].
    split; [split; [congruence | discriminate]|]. split; [exact Hlf|].
    unfold get_line, fgets. destruct line as [|d line]; [congruence|].
    rewrite Hidem. destruct (tokenize (String d line)) as [tokens|u]; [|reflexivity].
    now destruct (entry tokens 0).
Qed.

Lemma get_line_consumes_one_line_witness :
  exists line : string,
    "ls -l" +:+ nl +:+ "exit" = line +:+ snd (get_line ("ls -l" +:+ nl +:+ "exit"))
    /\ (String.length line <= LINE_BUFFER_SIZE - 1)%nat
    /\ (line = "" <-> "ls -l" +:+ nl +:+ "exit" = "")
    /\ (forall i, String.get i line = Some LF -> S i = String.length line)
    /\ get_line line = (fst (get_line ("ls -l" +:+ nl +:+ "exit")), "").
Proof. exact (get_line_consumes_one_line ("ls -l" +:+ nl +:+ "exit")). Defined.

Lemma read_line_full n : forall word rest,
  all_chars (fun c => negb (Ascii.eqb c LF)) word = true ->
  String.length word = n ->
  read_line n (word +:+ rest) = (word, rest).
Proof.
  induction n as [|n IH]; intros word rest Hword Hlen.
  - destruct word; [|discriminate]. now destruct rest.
  - destruct word as [|c word]; [discriminate|].
    cbn [all_chars] in Hword. apply andb_true_iff in Hword as [Hc Hword].
    apply negb_true_iff in Hc. rewrite append_cons. cbn [read_line].
    rewrite Hc, (IH word rest Hword); [reflexivity|]. now injection Hlen.
Qed.

Lemma token_chars_no_newline word :
  all_chars token_char word = true ->
  all_chars (fun c => negb (Ascii.eqb c LF)) word = true.
Proof.
  induction word as [|c word IH]; [reflexivity|].
  cbn [all_chars]. intros [[_ Hc]%token_char_spec Hword]%andb_true_iff.
  rewrite (IH Hword), andb_true_r.
  destruct (Ascii.eqb c LF) eqn:E; [|reflexivity].
  apply Ascii.eqb_eq in E. subst c. discriminate Hc.
Qed.

(** X7: a word of 1023 bytes fills the line buffer: [get_line] returns
    it as a line of one token whatever follows it, so that a longer word
    is cut and its remainder is read as the next line. *)
Theorem get_line_cuts_long_word (word rest : string) :
  all_chars token_char word = true ->
  String.length word = (LINE_BUFFER_SIZE - 1)%nat ->
  get_line (word +:+ rest) = (Ok (Some (argv [word])), rest).
Proof.
  intros Hword Hlen.
  assert (Hne : word <> "") by (intros ->; discriminate Hlen).
  rewrite get_line_spec. unfold fgets.
  rewrite (read_line_full _ word rest (token_chars_no_newline _ Hword) Hlen).
  destruct word as [|c word]; [congruence|]. rewrite append_cons.
  change (String c word) with ("" +:+ String c word) at 1 2 3.
  now rewrite (tokens_of_last "" (String c word) eq_refl Hne Hword).
Qed.

Lemma get_line_cuts_long_word_witness :
  get_line (many 1023 "a" +:+ "aaa" +:+ nl)
  = (Ok (Some (argv [many 1023 "a"])), "aaa" +:+ nl).
Proof.
  apply (get_line_cuts_long_word (many 1023 "a") ("aaa" +:+ nl)).
  - vm_compute. reflexivity.
  - vm_compute. reflexivity.
Defined.

End LineSourceMore.

(** ** More on the dispatcher *)

(** Case analysis on every test the dispatcher makes. *)
Ltac run_cases :=
  repeat match goal with
         | |- context [match ?x with _ => _ end] =>
             lazymatch x with
             | context [match _ with _ => _ end] => fail
             | _ => destruct x eqn:?
             end
         end.

Section DispatcherMore.

Implicit Types (sys : os) (w : world) (tokens : token_array).

Lemma first_null_undef tokens : forall curr u,
  first_null curr tokens = Undef u ->
  u = ReadOutOfBounds (curr + List.length tokens).
Proof.
  induction tokens as [|[token|] tokens IH]; intros curr u; cbn [first_null].
  - intros [= <-]. f_equal. cbn. lia.
  - intros H. rewrite (IH _ _ H). f_equal. cbn. lia.
  - discriminate.
Qed.

(** [run_command] runs into undefined behaviour only on a NULL command
    or, as the new child, on an argument vector without a NULL entry. *)
Lemma run_command_fail sys tokens w u :
  fst (run_command sys tokens w) = Fail u ->
  (u = NullPointer /\ entry tokens 0 = None)
  \/ (exists command,
        entry tokens 0 = Some command /\ check_command command = EXTERNAL
        /\ fork_ret sys (forks w) = 0
        /\ first_null 0 tokens = Undef u).
Proof.
  destruct (entry tokens 0) as [command|] eqn:H0.
  - destruct (check_command command) eqn:Hkind.
    + rewrite (run_command_external sys tokens w command H0 Hkind). cbv zeta.
      intros H. right. exists command.
      destruct (Z.eqb_spec (fork_ret sys (forks w)) 0) as [Hcid|Hcid].
      * unfold child_exec in H.
        destruct (first_null 0 tokens) as [n|u'] eqn:Hnull.
        -- destruct (execvp_ok sys (count_fork w) command); [discriminate|].
           now destruct (fork_ret sys (forks w) <? 0).
        -- injection H as <-. now repeat split.
      * now destruct (fork_ret sys (forks w) <? 0).
    + unfold run_command. rewrite H0, Hkind. run_cases; discriminate.
    + unfold run_command. rewrite H0, Hkind. run_cases; discriminate.
    + unfold run_command. rewrite H0, Hkind. run_cases; discriminate.
    + unfold run_command. rewrite H0, Hkind. discriminate.
  - unfold run_command. rewrite H0. intros [= <-]. now left.
Qed.

Lemma check_command_classify command :
  check_command command = classify_exact (cstr command).
Proof.
  unfold check_command, classify_exact.
  destruct (check_command_tests command) as (-> & -> & -> & ->).
  destruct (String.eqb_spec (cstr command) "cd") as [E1|E1],
           (String.eqb_spec (cstr command) "exit") as [E2|E2],
           (String.eqb_spec (cstr command) "setenv") as [E3|E3],
           (String.eqb_spec (cstr command) "unsetenv") as [E4|E4];
    try reflexivity; congruence.
Qed.

(** X8: the array [get_line] returns always starts with a command: entry
    0 is a non-empty token without NUL, space or newline, which
    [check_command] classifies by equality with the reserved names, and
    [run_command] never meets a NULL command in it. *)
Theorem get_line_command_classified
    (input rest : string) tokens :
  get_line input = (Ok (Some tokens), rest) ->
  exists command : string,
    entry tokens 0 = Some command
    /\ command <> ""
    /\ all_chars token_char command = true
    /\ check_command command = classify_exact command
    /\ (forall sys w, fst (run_command sys tokens w) <> Fail NullPointer).
Proof.
  rewrite get_line_spec. intros Hget.
  destruct (fgets LINE_BUFFER_SIZE input) as [[line rest']|]; [|discriminate].
  destruct (List.length (tokens_of line) <=? TOKENS_SIZE)%nat; [|discriminate].
  pose proof (tokens_of_clean line) as Hclean.
  destruct (tokens_of line) as [|command others]; [discriminate|].
  injection Hget as <- _. apply Forall_cons in Hclean as [[Hne Hchars] _].
  assert (H0 : entry (argv (command :: others)) 0 = Some command)
    by now rewrite entry_argv by (unfold TOKENS_SIZE; lia).
  exists command. split; [exact H0|]. split; [exact Hne|]. split; [exact Hchars|].
  split.
  - rewrite check_command_classify. now rewrite (token_chars_nul_free _ Hchars).
  - intros sys w Hfail.
    apply run_command_fail in Hfail as [[_ Hnone]|(c & _ & _ & _ & Hnull)];
      [congruence|].
    apply first_null_undef in Hnull. discriminate.
Qed.

Lemma get_line_command_classified_witness :
  exists command : string,
    entry (argv ["cdx"; "/tmp"]) 0 = Some command
    /\ command <> ""
    /\ all_chars token_char command = true
    /\ check_command command = classify_exact command
    /\ (forall sys w, fst (run_command sys (argv ["cdx"; "/tmp"]) w) <> Fail NullPointer).
Proof.
  apply (get_line_command_classified ("cdx /tmp" +:+ nl) "").
  rewrite get_line_spec. reflexivity.
Defined.

(** X9: what a dispatch can change.  Only an External command forks,
    exactly once, and it changes neither the environment nor the working
    directory; only [setenv] and [unsetenv] can change the environment;
    only [cd] can change the working directory; what was printed before
    is kept; and the result of a built-in does not depend on what [fork]
    and [execvp] would answer. *)
Theorem run_command_frame sys tokens w (command : string) :
  entry tokens 0 = Some command ->
  let after := snd (run_command sys tokens w) in
  (check_command command = EXTERNAL -> forks after = S (forks w))
  /\ (check_command command <> EXTERNAL -> forks after = forks w)
  /\ (check_command command <> SETENV -> check_command command <> UNSETENV ->
      env after = env w)
  /\ (check_command command <> CD -> cwd after = cwd w)
  /\ (exists msgs, output after = (output w ++ msgs)%list)
  /\ (check_command command <> EXTERNAL ->
      forall sys', chdir_to sys' = chdir_to sys ->
                   run_command sys' tokens w = run_command sys tokens w).
Proof.
  intros H0. cbv zeta. unfold run_command, child_exec. rewrite H0.
  destruct (check_command command) eqn:Hkind;
    (split; [|split; [|split; [|split; [|split]]]]);
    try congruence.
  all: try (intros _ sys' Hchdir; rewrite ?Hchdir; reflexivity).
  all: try (intros; run_cases; cbn; reflexivity).
  all: run_cases; cbn;
    first [ exists []; now rewrite app_nil_r
          | eexists; reflexivity
          | eexists; rewrite <- app_assoc; reflexivity ].
Qed.

Lemma run_command_frame_witness :
  forks (snd (run_command parent_no_program (argv ["ls"; "-l"]) world0))
  = S (forks world0)
  /\ cwd (snd (run_command parent_no_program (argv ["setenv"; "A"; "1"]) world0))
    = cwd world0.
Proof.
  split.
  - apply (proj1 (run_command_frame parent_no_program (argv ["ls"; "-l"]) world0 "ls"
                    eq_refl)).
    reflexivity.
  - apply (proj1 (proj2 (proj2 (proj2
             (run_command_frame parent_no_program (argv ["setenv"; "A"; "1"]) world0
                "setenv" eq_refl))))).
    discriminate.
Defined.

(** X10: the status [run_command] returns is 1, 0 or -1.  It is 0
    exactly for the command "exit", whatever its arguments, and then the
    state is untouched; it is -1 only for an External command whose fork
    failed or that runs as the new child. *)
Theorem run_command_status sys tokens w (command : string) (ret_val : Z) :
  entry tokens 0 = Some command ->
  fst (run_command sys tokens w) = Ret ret_val ->
  (ret_val = 1 \/ ret_val = 0 \/ ret_val = -1)
  /\ (ret_val = 0 <-> check_command command = EXIT)
  /\ (ret_val = 0 -> snd (run_command sys tokens w) = w)
  /\ (ret_val = -1 ->
      check_command command = EXTERNAL /\ fork_ret sys (forks w) <= 0).
Proof.
  intros H0. unfold run_command, child_exec. rewrite H0.
  destruct (check_command command) eqn:Hkind; run_cases; cbn;
    intros [= <-]; rewrite ?Z.eqb_eq, ?Z.ltb_lt in *;
    (split; [|split; [|split]]);
    try (split; intros); intros; try lia; try congruence;
    try (split; [reflexivity|lia]); auto.
Qed.

Lemma run_command_status_witness :
  snd (run_command no_fork (argv ["exit"; "now"]) world0) = world0.
Proof.
  apply (proj1 (proj2 (proj2
           (run_command_status no_fork (argv ["exit"; "now"]) world0 "exit" 0
              eq_refl eq_refl)))).
  reflexivity.
Defined.

Lemma set_env_set_env e1 e2 w : set_env e2 (set_env e1 w) = set_env e2 w.
Proof. reflexivity. Qed.

Lemma setenv_env_other name value overwrite e other :
  other <> name -> snd (setenv name value overwrite e) !! other = e !! other.
Proof.
  intros Hother. unfold setenv.
  destruct (valid_name name); [|reflexivity].
  destruct (e !! name); [destruct (overwrite =? 0)|]; cbn [snd];
    try reflexivity; now apply lookup_insert_ne.
Qed.

Lemma unsetenv_env_other name e other :
  other <> name -> snd (unsetenv name e) !! other = e !! other.
Proof.
  intros Hother. unfold unsetenv.
  destruct (valid_name name); [|reflexivity]. cbn [snd]. now apply lookup_delete_ne.
Qed.

(** X11: dispatching [setenv] or [unsetenv] on a name, with any further
    arguments, leaves every other variable of the environment as it
    was. *)
Theorem setenv_unsetenv_other_variables
    sys w (name : string) (args : list string) (other : string) :
  other <> name ->
  env (snd (run_command sys (argv ("setenv" :: name :: args)) w)) !! other
  = env w !! other
  /\ env (snd (run_command sys (argv ("unsetenv" :: name :: args)) w)) !! other
    = env w !! other.
Proof.
  intros Hother. split.
  - rewrite run_command_setenv by now rewrite entry_argv by (unfold TOKENS_SIZE; lia).
    rewrite !entry_argv by (unfold TOKENS_SIZE; lia). cbn [lookup list_lookup].
    destruct args as [|value args]; cbn [lookup list_lookup snd print set_env env];
      [reflexivity|].
    now apply setenv_env_other.
  - rewrite run_command_unsetenv by now rewrite entry_argv by (unfold TOKENS_SIZE; lia).
    rewrite !entry_argv by (unfold TOKENS_SIZE; lia).
    cbn [lookup list_lookup snd set_env env]. now apply unsetenv_env_other.
Qed.

Lemma setenv_unsetenv_other_variables_witness :
  env (snd (run_command parent_no_program (argv ["setenv"; "A"; "1"])
              (set_env (<["B" := "2"]> ∅) world0))) !! "B" = Some "2".
Proof.
  rewrite (proj1 (setenv_unsetenv_other_variables parent_no_program
                    (set_env (<["B" := "2"]> ∅) world0) "A" ["1"] "B"
                    ltac:(discriminate))).
  apply lookup_insert_eq.
Defined.

(** X12: for a name [setenv] accepts, the last of two [setenv] wins: the
    state after [setenv X a] and [setenv X b] is the state after
    [setenv X b] alone.  After [setenv X a] and [unsetenv X] the variable
    is absent, and when it was absent at first the state is the one
    before the two commands. *)
Theorem setenv_then_unsetenv sys w (name a b : string) :
  valid_name name = true ->
  let w1 := snd (run_command sys (argv ["setenv"; name; a]) w) in
  snd (run_command sys (argv ["setenv"; name; b]) w1)
  = snd (run_command sys (argv ["setenv"; name; b]) w)
  /\ env w1 !! name = Some a
  /\ env (snd (run_command sys (argv ["unsetenv"; name]) w1)) !! name = None
  /\ (env w !! name = None ->
      snd (run_command sys (argv ["unsetenv"; name]) w1) = w).
Proof.
  intros Hvalid. cbv zeta.
  rewrite !(run_command_setenv sys (argv ["setenv"; name; a])) by reflexivity.
  rewrite !(run_command_setenv sys (argv ["setenv"; name; b])) by reflexivity.
  rewrite !(run_command_unsetenv sys (argv ["unsetenv"; name])) by reflexivity.
  change (entry (argv ["setenv"; name; a]) 1) with (Some name).
  change (entry (argv ["setenv"; name; a]) 2) with (Some a).
  change (entry (argv ["setenv"; name; b]) 1) with (Some name).
  change (entry (argv ["setenv"; name; b]) 2) with (Some b).
  change (entry (argv ["unsetenv"; name]) 1) with (Some name).
  cbv iota beta. cbn [snd set_env env cwd output forks].
  rewrite !(setenv_overwrite _ _ _ Hvalid). unfold unsetenv. rewrite Hvalid.
  cbn [snd set_env env cwd output forks].
  split; [now rewrite insert_insert_eq|]. split; [apply lookup_insert_eq|].
  split; [apply lookup_delete_eq|].
  intros Habsent. rewrite delete_insert_eq, (delete_id _ _ Habsent).
  now destruct w.
Qed.

Lemma setenv_then_unsetenv_witness :
  snd (run_command parent_no_program (argv ["unsetenv"; "X"])
         (snd (run_command parent_no_program (argv ["setenv"; "X"; "1"]) world0)))
  = world0.
Proof.
  apply (proj2 (proj2 (proj2
           (setenv_then_unsetenv parent_no_program world0 "X" "1" "2" eq_refl)))).
  apply lookup_empty.
Defined.

End DispatcherMore.

(** ** More on [cleanup], the startup pass and the loop *)

Section SessionMore.

Implicit Types (sys : os) (w : world) (st : loop_state) (tokens : token_array).

Lemma first_null_ok tokens : forall curr n,
  first_null curr tokens = Ok n ->
  exists k, n = (curr + k)%nat /\ tokens !! k = Some None
            /\ forall i, (i < k)%nat -> exists token, tokens !! i = Some (Some token).
Proof.
  induction tokens as [|[token|] tokens IH]; intros curr n; cbn [first_null].
  - discriminate.
  - intros H. destruct (IH _ _ H) as (k & -> & Hk & Hbefore).
    exists (S k). split; [lia|]. split; [exact Hk|].
    intros [|i] Hi; [now exists token|]. apply Hbefore. lia.
  - intros [= <-]. exists 0%nat. split; [lia|]. split; [reflexivity|]. lia.
Qed.

Lemma first_null_found tokens : forall curr k,
  tokens !! k = Some None -> exists n, first_null curr tokens = Ok n.
Proof.
  induction tokens as [|[token|] tokens IH]; intros curr k Hk; cbn [first_null].
  - discriminate.
  - destruct k as [|k]; [discriminate|]. exact (IH _ k Hk).
  - now exists curr.
Qed.

(** X13: [cleanup] frees the entries before the first NULL entry and
    stops there; it stays inside the array exactly when the array has a
    NULL entry, and otherwise reads the entry behind the last one. *)
Theorem cleanup_walk tokens :
  (cleanup tokens = Ok tt <-> exists n, tokens !! n = Some None)
  /\ (forall n, first_null 0 tokens = Ok n ->
        tokens !! n = Some None
        /\ forall i, (i < n)%nat -> exists token, tokens !! i = Some (Some token))
  /\ ((forall n, tokens !! n <> Some None) ->
      cleanup tokens = Undef (ReadOutOfBounds (List.length tokens))).
Proof.
  split; [|split].
  - unfold cleanup. split.
    + destruct (first_null 0 tokens) as [n|u] eqn:Hnull; [|discriminate].
      intros _. apply first_null_ok in Hnull as (k & _ & Hk & _). now exists k.
    + intros [n Hn]. destruct (first_null_found tokens 0 n Hn) as [m ->]. reflexivity.
  - intros n Hnull. apply first_null_ok in Hnull as (k & -> & Hk & Hbefore).
    now split.
  - intros Hfull. unfold cleanup.
    destruct (first_null 0 tokens) as [n|u] eqn:Hnull.
    + apply first_null_ok in Hnull as (k & _ & Hk & _). now destruct (Hfull k).
    + now rewrite (first_null_undef _ _ _ Hnull).
Qed.

Lemma cleanup_walk_witness :
  cleanup [Some "a"; Some "b"] = Undef (ReadOutOfBounds 2)
  /\ [Some "ls"; None; Some "stale"] !! 1%nat = Some None.
Proof.
  split.
  - apply (proj2 (proj2 (cleanup_walk [Some "a"; Some "b"]))).
    intros [|[|n]]; discriminate.
  - apply (proj1 (proj2 (cleanup_walk [Some "ls"; None; Some "stale"]))).
    reflexivity.
Defined.

Lemma get_line_blank blank rest :
  all_chars (Ascii.eqb SP) blank = true ->
  (String.length blank < LINE_BUFFER_SIZE - 1)%nat ->
  get_line (blank +:+ nl +:+ rest) = (Ok None, rest).
Proof.
  intros Hblank Hlen. destruct (spaces_blank blank Hblank) as [Hnolf Hdelims].
  rewrite (get_line_one_line blank rest Hnolf Hlen).
  now rewrite (tokens_of_blank _ Hdelims).
Qed.



Lemma argv_not_terminated toks u :
  (List.length toks <= TOKENS_SIZE)%nat ->
  first_null 0 (argv toks) = Undef u ->
  List.length toks = TOKENS_SIZE /\ u = ReadOutOfBounds TOKENS_SIZE.
Proof.
  intros Hle Hnull.
  destruct (Nat.eq_dec (List.length toks) TOKENS_SIZE) as [Heq|Hne].
  - split; [exact Heq|]. apply first_null_undef in Hnull.
    now rewrite argv_length in Hnull by exact Hle.
  - rewrite first_null_argv in Hnull by lia. discriminate.
Qed.

(** X15: a round of the interactive loop runs into undefined behaviour
    only on a line of 64 tokens or more, hence of 127 bytes or more: with
    65 tokens by the store behind the array, with 64 by the read behind
    it.  It never meets a NULL command. *)
Theorem loop_round_undefined_only_on_long_lines sys st (u : undefined) :
  loop_body sys st = Fail u ->
  exists line rest : string,
    fgets LINE_BUFFER_SIZE (stdin st) = Some (line, rest)
    /\ (TOKENS_SIZE <= List.length (tokens_of line))%nat
    /\ (127 <= String.length line)%nat
    /\ (u = WriteOutOfBounds TOKENS_SIZE \/ u = ReadOutOfBounds TOKENS_SIZE).
Proof.
  unfold loop_body. rewrite get_line_spec.
  destruct (fgets LINE_BUFFER_SIZE (stdin st)) as [[line rest]|]; [|discriminate].
  pose proof (tokens_of_count line) as Hcount.
  intros Hfail. exists line, rest. split; [reflexivity|].
  enough (Hlong : (TOKENS_SIZE <= List.length (tokens_of line))%nat
                  /\ (u = WriteOutOfBounds TOKENS_SIZE \/ u = ReadOutOfBounds TOKENS_SIZE)).
  { destruct Hlong as [Hlong Hu]. split; [exact Hlong|]. split; [|exact Hu].
    unfold TOKENS_SIZE in Hlong. lia. }
  destruct (Nat.leb_spec (List.length (tokens_of line)) TOKENS_SIZE) as [Hle|Hgt].
  - destruct (tokens_of line) as [|first others] eqn:Htoks; [discriminate|].
    destruct (run_command sys (argv (first :: others)) _) as [[ret_val| |u'] w'] eqn:Hrun;
      [|discriminate|].
    + destruct (cleanup (argv (first :: others))) as [[]|u'] eqn:Hclean; [discriminate|].
      injection Hfail as <-. unfold cleanup in Hclean.
      destruct (first_null 0 (argv (first :: others))) as [n|u''] eqn:Hnull; [discriminate|].
      injection Hclean as <-.
      destruct (argv_not_terminated _ _ Hle Hnull) as [-> ->]. split; [lia | now right].
    + injection Hfail as ->.
      assert (Hfst : fst (run_command sys (argv (first :: others))
                            (print Stdout "? " (shell st))) = Fail u)
        by now rewrite Hrun.
      apply run_command_fail in Hfst as [[_ Hnone]|(c & _ & _ & _ & Hnull)].
      * rewrite entry_argv in Hnone by (unfold TOKENS_SIZE; lia). discriminate.
      * destruct (argv_not_terminated _ _ Hle Hnull) as [-> ->]. split; [lia | now right].
  - injection Hfail as <-. split; [lia | now left].
Qed.

Lemma loop_round_undefined_only_on_long_lines_witness :
  exists line rest : string,
    fgets LINE_BUFFER_SIZE (many 64 "a " +:+ nl) = Some (line, rest)
    /\ (TOKENS_SIZE <= List.length (tokens_of line))%nat
    /\ (127 <= String.length line)%nat
    /\ (ReadOutOfBounds 64 = WriteOutOfBounds TOKENS_SIZE
        \/ ReadOutOfBounds 64 = ReadOutOfBounds TOKENS_SIZE).
Proof.
  apply (loop_round_undefined_only_on_long_lines parent_no_program
           (mkLoop 1 (many 64 "a " +:+ nl) world0) (ReadOutOfBounds 64)).
  vm_compute. reflexivity.
Defined.




Lemma run_command_ret sys tokens w (ret_val : Z) :
  fst (run_command sys tokens w) = Ret ret_val ->
  (ret_val = 1 \/ ret_val = 0 \/ ret_val = -1)
  /\ (ret_val = -1 -> fork_ret sys (forks w) <= 0).
Proof.
  unfold run_command, child_exec.
  destruct (entry tokens 0) as [command|]; [|discriminate].
  destruct (check_command command); run_cases; cbn;
    intros [= <-]; rewrite ?Z.eqb_eq, ?Z.ltb_lt in *;
    split; intros; try lia; auto.
Qed.

Lemma loop_body_status sys st st' :
  program_status st = 1 ->
  loop_body sys st = Ret st' ->
  (program_status st' = 1 \/ program_status st' = 0 \/ program_status st' = -1)
  /\ (always_parent sys -> program_status st' <> -1).
Proof.
  intros Hst. unfold loop_body.
  destruct (get_line (stdin st)) as [[[tokens|]|u] stdin']; [| |discriminate].
  - destruct (run_command sys tokens _) as [[ret_val| |u] w'] eqn:Hrun;
      [|discriminate|discriminate].
    destruct (cleanup tokens); [|discriminate]. intros [= <-]. cbn [program_status].
    assert (Hfst : fst (run_command sys tokens (print Stdout "? " (shell st)))
                   = Ret ret_val) by now rewrite Hrun.
    apply run_command_ret in Hfst as [Hvals Hneg]. split; [exact Hvals|].
    intros Hparent ->. specialize (Hneg eq_refl). specialize (Hparent (forks (shell st))).
    cbn [forks print] in Hneg. lia.
  - intros [= <-]. cbn [program_status]. rewrite Hst. split; [now left | lia].
Qed.

Lemma loop_from_result fuel : forall sys st (ret_val : Z) st',
  (program_status st = 1 \/ program_status st = 0 \/ program_status st = -1) ->
  loop_from fuel sys st = Some (Ret ret_val, st') ->
  (ret_val = 0 \/ ret_val = -1)
  /\ (always_parent sys -> program_status st <> -1 -> ret_val = 0).
Proof.
  induction fuel as [|fuel IH]; intros sys st ret_val st' Hst; cbn [loop_from];
    destruct (Z.gtb_spec (program_status st) 0) as [Hpos|Hstop];
    try discriminate.
  - intros [= <- _]. split; lia.
  - assert (Hone : program_status st = 1) by lia.
    destruct (loop_body sys st) as [st1| |u] eqn:Hbody; [|discriminate|discriminate].
    destruct (loop_body_status sys st st1 Hone Hbody) as [Hvals Hparent].
    intros Hloop. destruct (IH sys st1 ret_val st' Hvals Hloop) as [Hret Hzero].
    split; [exact Hret|]. intros Hp _. apply Hzero; [exact Hp | exact (Hparent Hp)].
  - intros [= <- _]. split; lia.
Qed.

(** X17: the interactive loop leaves with status 0 or -1 only, and [main]
    exits with status 0 or 255 only.  In a process that is the parent of
    every fork it makes, the loop can only leave with 0 and [main] can
    only exit with 0: the session itself never ends with an error. *)
Theorem session_status
    (fuel : nat) sys (kapishrc : option string) (input : string) w :
  (forall (ret_val : Z) st,
      loop fuel sys input w = Some (Ret ret_val, st) ->
      (ret_val = 0 \/ ret_val = -1) /\ (always_parent sys -> ret_val = 0))
  /\ (forall code : Z,
        main fuel sys kapishrc input w = Some (Ret code) ->
        (code = 0 \/ code = 255) /\ (always_parent sys -> code = 0)).
Proof.
  assert (Hloop : forall w0 (ret_val : Z) st,
            loop fuel sys input w0 = Some (Ret ret_val, st) ->
            (ret_val = 0 \/ ret_val = -1) /\ (always_parent sys -> ret_val = 0)).
  { intros w0 ret_val st H. unfold loop in H.
    apply loop_from_result in H as [Hret Hzero]; [|now left].
    split; [exact Hret|]. intros Hp. apply Hzero; [exact Hp | cbn; lia]. }
  split; [apply Hloop|].
  intros code. unfold main.
  destruct (initalize sys kapishrc w) as [[ret| |u] w1] eqn:Hinit;
    [|discriminate|discriminate].
  apply initalize_status in Hinit. subst ret. cbn [Z.eqb negb].
  destruct (loop fuel sys input w1) as [[[ret_val| |u] st]|] eqn:Hl; try discriminate.
  destruct (Hloop w1 ret_val st Hl) as [[->| ->] Hzero]; cbn [Z.eqb negb].
  - intros [= <-]. split; [now left | reflexivity].
  - intros [= <-]. split; [now right|]. intros Hp. specialize (Hzero Hp). lia.
Qed.

Lemma session_status_witness :
  (255 = 0 \/ 255 = 255) /\ (0 = 0 \/ 0 = 255).
Proof.
  split.
  - apply (proj1 (proj2 (session_status 2 no_fork None ("ls" +:+ nl) world0)
                    255 eq_refl)).
  - apply (proj1 (proj2 (session_status 2 parent_no_program None ("exit" +:+ nl) world0)
                    0 eq_refl)).
Defined.

(** X18: the interactive loop skips blank lines: a round on a blank line
    prints the prompt, consumes the line and dispatches nothing, and the
    loop goes on with the next line. *)
Theorem loop_skips_blank_line (fuel : nat) sys w (blank rest : string) :
  all_chars (Ascii.eqb SP) blank = true ->
  (String.length blank < LINE_BUFFER_SIZE - 1)%nat ->
  loop (S fuel) sys (blank +:+ nl +:+ rest) w
  = loop fuel sys rest (print Stdout "? " w).
Proof.
  intros Hblank Hlen. unfold loop. cbn [loop_from program_status].
  change (1 >? 0) with true. cbv iota. unfold loop_body. cbn [stdin shell program_status].
  now rewrite (get_line_blank blank rest Hblank Hlen).
Qed.

Lemma loop_skips_blank_line_witness :
  loop 2 parent_no_program ("  " +:+ nl +:+ ("exit" +:+ nl)) world0
  = loop 1 parent_no_program ("exit" +:+ nl) (print Stdout "? " world0).
Proof.
  apply (loop_skips_blank_line 1 parent_no_program world0 "  " ("exit" +:+ nl)).
  - reflexivity.
  - vm_compute. lia.
Defined.



End SessionMore.
